(** * clusterctl: provider upgrades, object graph and configuration reader

    A shallow embedding of the upgrade planner
    ([cmd/clusterctl/client/cluster/upgrader.go]), of the in-memory
    configuration reader ([cmd/clusterctl/client/config/reader_memory.go])
    and of the object graph exercised by the object graph tests, followed by
    the properties established about them.

    Conventions.
    - A Go value of interface type [error] is an [option]: [None] is [nil].
    - A Go call returning [(T, error)] on a collaborator is a pair
      [T * error]; the caller's [if err != nil] is a [match] on the second
      component.  A fallible function of the package itself whose every
      [return] is either [value, nil] or [nil, err] is a [result].
    - Go maps are [gmap]s, string sets are [gset]s, slices are lists. *)

From stdpp Require Import base option list gmap fin_maps fin_sets strings.

Set Default Proof Using "Type".
#[local] Set Warnings "-clear-no-such-hyp".

(** Closed goals are settled by evaluation: an equation whose two sides
    evaluate to the same value, or a decidable proposition which evaluates
    to true.  The evaluation is left to the kernel, so that no evaluated
    term is kept in the proof. *)
Ltac by_evaluation :=
  repeat split;
  lazymatch goal with
  | |- ?a = ?b => vm_cast_no_check (@eq_refl _ b)
  | |- _ => apply (bool_decide_unpack _); vm_cast_no_check I
  end.

(** ** Go errors ([github.com/pkg/errors]) *)

Module errors.

(** An error value keeps its format string and its arguments apart, so that
    no formatting verb has to be interpreted. *)
Inductive goerror : Type :=
| New (format : string) (args : list string)
| WithMessage (cause : goerror) (format : string) (args : list string).

(** The interface type [error]; [None] is the [nil] error. *)
Definition error : Type := option goerror.

(** [errors.Errorf(format, args...)]: always a non-nil error. *)
Definition Errorf (format : string) (args : list string) : error :=
  Some (New format args).

(** [errors.Wrapf(err, format, args...)]: "If err is nil, Wrapf returns
    nil." *)
Definition Wrapf (err : error) (format : string) (args : list string) : error :=
  match err with
  | None => None
  | Some cause => Some (WithMessage cause format args)
  end.

(** The outermost message of an error, as (format, arguments). *)
Definition message (e : goerror) : string * list string :=
  match e with
  | New f a => (f, a)
  | WithMessage _ f a => (f, a)
  end.

(** A fallible function of the package: [Ok v] is [return v, nil] and
    [Err e] is [return nil, e] with [e] non-nil. *)
Inductive result (A : Type) : Type :=
| Ok (a : A)
| Err (e : goerror).
Global Arguments Ok {A} a.
Global Arguments Err {A} e.

Definition bind {A B} (r : result A) (k : A -> result B) : result B :=
  match r with
  | Ok a => k a
  | Err e => Err e
  end.

(** The error a result carries when seen as a Go [error] value. *)
Definition err_of {A} (r : result A) : error :=
  match r with
  | Ok _ => None
  | Err e => Some e
  end.

End errors.
Import errors.

(** [result] is an error monad; stdpp's [x ← r; k] notation threads it. *)
#[global] Instance result_ret : MRet result := @Ok.
#[global] Instance result_bind : MBind result := fun A B k r => errors.bind r k.

(** ** package config: the in-memory reader *)

Module config.

Record configProvider : Type := {
  cp_Name : string;
  cp_URL : string;
  cp_Type : string
}.

Record imageMeta : Type := {
  Repository : string;
  Tag : string
}.

(** [type MemoryReader struct]. *)
Record MemoryReader : Type := {
  variables : gmap string string;
  providers : list configProvider;
  imageMetas : gmap string imageMeta
}.

(** [func NewMemoryReader() *MemoryReader]: the [providers] slice is left
    at its zero value. *)
Definition NewMemoryReader : MemoryReader :=
  {| variables := ∅; providers := []; imageMetas := ∅ |}.

(** [func (f *MemoryReader) Get(key string) (string, error)]. *)
Definition Get (f : MemoryReader) (key : string) : string * error :=
  match variables f !! key with
  | Some val => (val, None)
  | None => ("", Errorf "value for variable %q is not set" [key])
  end.

(** [func (f *MemoryReader) Set(key, value string)]. *)
Definition Set_ (f : MemoryReader) (key value : string) : MemoryReader :=
  {| variables := <[key := value]> (variables f);
     providers := providers f;
     imageMetas := imageMetas f |}.

(** [func (f *MemoryReader) WithVar(key, value string) *MemoryReader]. *)
Definition WithVar (f : MemoryReader) (key value : string) : MemoryReader :=
  {| variables := <[key := value]> (variables f);
     providers := providers f;
     imageMetas := imageMetas f |}.

Section UnmarshalKey.

(** The value [rawval] points to, and [yaml.Unmarshal], which decodes into
    it: the decoder returns the value left behind the pointer together with
    its error. *)
Variable V : Type.
Variable yaml_Unmarshal : string -> V -> V * error.

(** [func (f *MemoryReader) UnmarshalKey(key string, rawval interface{}) error]:
    the pair is the content of [rawval] after the call and the returned
    error. *)
Definition UnmarshalKey (f : MemoryReader) (key : string) (rawval : V) : V * error :=
  let '(data, err) := Get f key in
  match err with
  | Some _ => (rawval, None)
  | None => yaml_Unmarshal data rawval
  end.

End UnmarshalKey.

End config.

(** ** package clusterctlv1: the provider inventory record *)

Module clusterctlv1.

(** [clusterctlv1.Provider], with the fields the upgrader reads.  The type
    is declared outside the sources at hand; [Type_] is its [Type] field. *)
Record Provider : Type := {
  ProviderName : string;
  Type_ : string;
  Namespace : string;
  Version : string;
  WatchedNamespace : string
}.

End clusterctlv1.

(** ** package cluster: the provider upgrader *)

Module cluster.

Import clusterctlv1.

(** [type UpgradeItem struct]: the embedded [clusterctlv1.Provider] and the
    target version. *)
Record UpgradeItem : Type := {
  Provider : clusterctlv1.Provider;
  NextVersion : string
}.

(** [type UpgradePlan struct]. *)
Record UpgradePlan : Type := {
  Contract : string;
  CoreProvider : clusterctlv1.Provider;
  Providers : list UpgradeItem
}.

(** [type ManagementGroup struct], with the two fields the upgrader reads
    ([CoreProvider] and [Providers]). *)
Record ManagementGroup : Type := {
  mg_CoreProvider : clusterctlv1.Provider;
  mg_Providers : list clusterctlv1.Provider
}.

(** [type DeleteOptions struct], as [doUpgrade] fills it. *)
Record DeleteOptions : Type := {
  opt_Provider : clusterctlv1.Provider;
  IncludeNamespace : bool;
  IncludeCRDs : bool
}.

(** [repository.ComponentsOptions], as [getUpgradeComponents] fills it. *)
Record ComponentsOptions : Type := {
  co_Version : string;
  TargetNamespace : string;
  WatchingNamespace : string
}.

(** [func (u *UpgradePlan) isPartialUpgrade() bool]: the loop over
    [u.Providers]. *)
Fixpoint isPartialUpgrade_loop (items : list UpgradeItem) : bool :=
  match items with
  | [] => false
  | i :: rest =>
      if bool_decide (NextVersion i = "") then true
      else isPartialUpgrade_loop rest
  end.

Definition isPartialUpgrade (u : UpgradePlan) : bool :=
  isPartialUpgrade_loop (Providers u).

(** The read-only collaborators of the upgrader: what [Plan] and
    [createCustomPlan] call and the sources at hand do not define (the
    inventory client, [upgrader_info.go], the management group helpers, the
    semantic version parser and the release metadata). *)
Class UpgraderQueries : Type := {
  (** [*upgradeInfo] *)
  upgradeInfo : Type;
  (** [*version.Version] *)
  semver : Type;
  (** [*clusterctlv1.Metadata] and [*clusterctlv1.ReleaseSeries] *)
  Metadata : Type;
  ReleaseSeries : Type;
  (** [provider.InstanceName()], a function of the provider's name, type
      and namespace *)
  instanceName : string -> string -> string -> string;
  (** [u.providerInventory.GetManagementGroups()] *)
  GetManagementGroups : list ManagementGroup * error;
  (** [managementGroups.FindManagementGroupByProviderInstanceName(name)] *)
  FindManagementGroupByProviderInstanceName :
    list ManagementGroup -> string -> option ManagementGroup;
  (** [managementGroup.GetProviderByInstanceName(name)] *)
  GetProviderByInstanceName :
    ManagementGroup -> string -> option clusterctlv1.Provider;
  (** [u.getUpgradeInfo(provider)] *)
  getUpgradeInfo : clusterctlv1.Provider -> upgradeInfo * error;
  (** [info.currentContract] *)
  currentContract : upgradeInfo -> string;
  (** [info.getContractsForUpgrade()] *)
  getContractsForUpgrade : upgradeInfo -> list string;
  (** [info.getLatestNextVersion(contract)]; [None] is the nil pointer *)
  getLatestNextVersion : upgradeInfo -> string -> option semver;
  (** [versionTag(version)] *)
  versionTag : option semver -> string;
  (** [version.ParseSemantic(s)] *)
  ParseSemantic : string -> semver * error;
  (** [info.metadata] *)
  metadata : upgradeInfo -> Metadata;
  (** [metadata.GetReleaseSeriesForVersion(v)]; [None] is the nil pointer *)
  GetReleaseSeriesForVersion : Metadata -> semver -> option ReleaseSeries;
  (** [releaseSeries.Contract] *)
  rs_Contract : ReleaseSeries -> string
}.

Section Planner.

Context `{Q : UpgraderQueries}.

(** [func (p *Provider) InstanceName() string]. *)
Definition InstanceName (p : clusterctlv1.Provider) : string :=
  instanceName (ProviderName p) (Type_ p) (Namespace p).

(** [func (u *providerUpgrader) getUpgradePlan(managementGroup, contract)]:
    the loop over [managementGroup.Providers], [upgradeItems] being the slice
    built so far. *)
Fixpoint getUpgradePlan_loop (providers : list clusterctlv1.Provider)
    (contract : string) (upgradeItems : list UpgradeItem)
    : result (list UpgradeItem) :=
  match providers with
  | [] => Ok upgradeItems
  | provider :: rest =>
      let '(providerUpgradeInfo, err) := getUpgradeInfo provider in
      match err with
      | Some e => Err e
      | None =>
          let nextVersion := getLatestNextVersion providerUpgradeInfo contract in
          getUpgradePlan_loop rest contract
            (upgradeItems ++
               [{| Provider := provider; NextVersion := versionTag nextVersion |}])
      end
  end.

Definition getUpgradePlan (managementGroup : ManagementGroup) (contract : string)
    : result UpgradePlan :=
  upgradeItems ← getUpgradePlan_loop (mg_Providers managementGroup) contract [];
  mret {| Contract := contract;
          CoreProvider := mg_CoreProvider managementGroup;
          Providers := upgradeItems |}.

(** [Plan], the loop over [contractsForUpgrade] (lines 122 to 136): [ret] is
    the slice of plans appended to so far. *)
Fixpoint Plan_contracts (managementGroup : ManagementGroup)
    (coreUpgradeInfo : upgradeInfo) (contractsForUpgrade : list string)
    (ret : list UpgradePlan) : result (list UpgradePlan) :=
  match contractsForUpgrade with
  | [] => Ok ret
  | contract :: rest =>
      match getUpgradePlan managementGroup contract with
      | Err e => Err e
      | Ok upgradePlan =>
          if isPartialUpgrade upgradePlan
             && negb (bool_decide (currentContract coreUpgradeInfo = contract))
          then Plan_contracts managementGroup coreUpgradeInfo rest ret
          else Plan_contracts managementGroup coreUpgradeInfo rest
                 (ret ++ [upgradePlan])
      end
  end.

(** [Plan], the loop over [managementGroups] (lines 98 to 137).  The result
    is the pair [Plan] returns. *)
Fixpoint Plan_groups (managementGroups : list ManagementGroup)
    (ret : list UpgradePlan) : list UpgradePlan * error :=
  match managementGroups with
  | [] => (ret, None)
  | managementGroup :: rest =>
      let '(coreUpgradeInfo, err) :=
        getUpgradeInfo (mg_CoreProvider managementGroup) in
      match err with
      | Some _ => ([], err)
      | None =>
          let contractsForUpgrade := getContractsForUpgrade coreUpgradeInfo in
          if bool_decide (length contractsForUpgrade = 0) then
            ([], Wrapf err
                   "Invalid metadata: unable to find th API Version of Cluster API (contract) supported by the %s provider"
                   [InstanceName (mg_CoreProvider managementGroup)])
          else
            match Plan_contracts managementGroup coreUpgradeInfo
                    contractsForUpgrade ret with
            | Err e => ([], Some e)
            | Ok ret' => Plan_groups rest ret'
            end
      end
  end.

(** [func (u *providerUpgrader) Plan() ([]UpgradePlan, error)]. *)
Definition Plan : list UpgradePlan * error :=
  let '(managementGroups, err) := GetManagementGroups in
  match err with
  | Some _ => ([], err)
  | None => Plan_groups managementGroups []
  end.

(** [func (u *providerUpgrader) getManagementGroup(coreProvider)]. *)
Definition getManagementGroup (coreProvider : clusterctlv1.Provider)
    : result ManagementGroup :=
  let '(managementGroups, err) := GetManagementGroups in
  match err with
  | Some e => Err e
  | None =>
      match FindManagementGroupByProviderInstanceName managementGroups
              (InstanceName coreProvider) with
      | None =>
          Err (New "unable to identify %s/%s the management group"
                 [Namespace coreProvider; ProviderName coreProvider])
      | Some managementGroup => Ok managementGroup
      end
  end.

(** [func (u *providerUpgrader) getProviderContractByVersion(provider,
    targetVersion)]. *)
Definition getProviderContractByVersion (provider : clusterctlv1.Provider)
    (targetVersion : string) : result string :=
  let '(targetSemVersion, err) := ParseSemantic targetVersion in
  match err with
  | Some e =>
      Err (WithMessage e "failed to parse target version for the %s provider"
             [InstanceName provider])
  | None =>
      let '(info, err) := getUpgradeInfo provider in
      match err with
      | Some e => Err e
      | None =>
          match GetReleaseSeriesForVersion (metadata info) targetSemVersion with
          | None =>
              Err (New "invalid target version: version %s for the provider %s does not match any release series"
                     [targetVersion; InstanceName provider])
          | Some releaseSeries => Ok (rs_Contract releaseSeries)
          end
      end
  end.

(** [createCustomPlan], lines 235 to 241: the search for the core provider
    among the upgrade items, leaving at the first match. *)
Fixpoint targetCoreProviderVersion_loop (coreProvider : clusterctlv1.Provider)
    (upgradeItems : list UpgradeItem) (targetCoreProviderVersion : string)
    : string :=
  match upgradeItems with
  | [] => targetCoreProviderVersion
  | providerToUpgrade :: rest =>
      if bool_decide (InstanceName (Provider providerToUpgrade)
                      = InstanceName coreProvider)
      then NextVersion providerToUpgrade
      else targetCoreProviderVersion_loop coreProvider rest
             targetCoreProviderVersion
  end.

(** The error of line 259: the upgrade item is no member of the group. *)
Definition NotInManagementGroup (item group : string) : goerror :=
  New "unable to complete that upgrade: the provider %s in not part of the %s management group"
    [item; group].

(** The error of line 269 (the specification's [ContractMismatch]). *)
Definition ContractMismatch (item contract targetContract : string) : goerror :=
  New "unable to complete that upgrade: the target version for the provider %s supports the %s API Version of Cluster API (contract), while the management group is using %s"
    [item; contract; targetContract].

(** The error of line 294 (the specification's [ContractLagging]). *)
Definition ContractLagging (provider contract targetContract : string) : goerror :=
  New "unable to complete that upgrade: the provider %s supports the %s API Version of Cluster API (contract), while the management group is being updated to %s. Please include the %[1]s provider in the upgrade"
    [provider; contract; targetContract].

(** [item.WatchedNamespace = provider.WatchedNamespace] on the embedded
    provider of an upgrade item. *)
Definition setWatchedNamespace (upgradeItem : UpgradeItem) (ns : string)
    : UpgradeItem :=
  {| Provider :=
       {| ProviderName := ProviderName (Provider upgradeItem);
          Type_ := Type_ (Provider upgradeItem);
          Namespace := Namespace (Provider upgradeItem);
          Version := Version (Provider upgradeItem);
          WatchedNamespace := ns |};
     NextVersion := NextVersion upgradeItem |}.

(** [createCustomPlan], lines 255 to 278: the loop over the upgrade items,
    with [upgradePlan.Providers] and [upgradeInstanceNames] as built so
    far. *)
Fixpoint createCustomPlan_items (coreProvider : clusterctlv1.Provider)
    (managementGroup : ManagementGroup) (targetContract : string)
    (upgradeItems : list UpgradeItem)
    (planProviders : list UpgradeItem) (upgradeInstanceNames : gset string)
    : result (list UpgradeItem * gset string) :=
  match upgradeItems with
  | [] => Ok (planProviders, upgradeInstanceNames)
  | upgradeItem :: rest =>
      match GetProviderByInstanceName managementGroup
              (InstanceName (Provider upgradeItem)) with
      | None =>
          Err (NotInManagementGroup (InstanceName (Provider upgradeItem))
                 (InstanceName coreProvider))
      | Some provider =>
          match getProviderContractByVersion provider (NextVersion upgradeItem) with
          | Err e => Err e
          | Ok contract =>
              if bool_decide (contract ≠ targetContract) then
                Err (ContractMismatch (InstanceName (Provider upgradeItem))
                       contract targetContract)
              else
                let upgradeItem' :=
                  setWatchedNamespace upgradeItem (WatchedNamespace provider) in
                createCustomPlan_items coreProvider managementGroup
                  targetContract rest
                  (planProviders ++ [upgradeItem'])
                  ({[ InstanceName (Provider upgradeItem') ]}
                     ∪ upgradeInstanceNames)
          end
      end
  end.

(** [createCustomPlan], lines 281 to 296: the loop over the providers of the
    management group. *)
Fixpoint createCustomPlan_lagging (providers : list clusterctlv1.Provider)
    (upgradeInstanceNames : gset string) (targetContract : string)
    : result unit :=
  match providers with
  | [] => Ok tt
  | provider :: rest =>
      if bool_decide (InstanceName provider ∈ upgradeInstanceNames) then
        createCustomPlan_lagging rest upgradeInstanceNames targetContract
      else
        match getProviderContractByVersion provider (Version provider) with
        | Err e => Err e
        | Ok contract =>
            if bool_decide (contract ≠ targetContract) then
              Err (ContractLagging (InstanceName provider) contract
                     targetContract)
            else
              createCustomPlan_lagging rest upgradeInstanceNames targetContract
        end
  end.

(** [func (u *providerUpgrader) createCustomPlan(coreProvider, upgradeItems)]. *)
Definition createCustomPlan (coreProvider : clusterctlv1.Provider)
    (upgradeItems : list UpgradeItem) : result UpgradePlan :=
  managementGroup ← getManagementGroup coreProvider;
  let targetCoreProviderVersion :=
    targetCoreProviderVersion_loop (mg_CoreProvider managementGroup)
      upgradeItems (Version (mg_CoreProvider managementGroup)) in
  targetContract ←
    getProviderContractByVersion (mg_CoreProvider managementGroup)
      targetCoreProviderVersion;
  built ← createCustomPlan_items coreProvider managementGroup targetContract
            upgradeItems [] ∅;
  _ ← createCustomPlan_lagging (mg_Providers managementGroup) built.2
        targetContract;
  mret {| Contract := targetContract;
          CoreProvider := mg_CoreProvider managementGroup;
          Providers := built.1 |}.

(** *** What the planner is expected to compute

    The definitions below are not part of the program: they state, without
    loops, what the properties compare the program with. *)

(** The upgrade item of a provider for a contract. *)
Definition upgradeItemFor (contract : string) (provider : clusterctlv1.Provider)
    : UpgradeItem :=
  {| Provider := provider;
     NextVersion :=
       versionTag (getLatestNextVersion (getUpgradeInfo provider).1 contract) |}.

(** The candidate plan of a management group for a contract. *)
Definition candidatePlan (managementGroup : ManagementGroup) (contract : string)
    : UpgradePlan :=
  {| Contract := contract;
     CoreProvider := mg_CoreProvider managementGroup;
     Providers := upgradeItemFor contract <$> mg_Providers managementGroup |}.

(** The current contract of a management group, which its core provider
    gives. *)
Definition groupContract (managementGroup : ManagementGroup) : string :=
  currentContract (getUpgradeInfo (mg_CoreProvider managementGroup)).1.

(** The contracts considered for a management group. *)
Definition groupContracts (managementGroup : ManagementGroup) : list string :=
  getContractsForUpgrade (getUpgradeInfo (mg_CoreProvider managementGroup)).1.

(** The upgrade information of every provider of the group, the core
    provider included, is available, and some contract is considered. *)
Definition groupReadable (managementGroup : ManagementGroup) : Prop :=
  (getUpgradeInfo (mg_CoreProvider managementGroup)).2 = None
  /\ groupContracts managementGroup ≠ []
  /\ Forall (λ provider, (getUpgradeInfo provider).2 = None)
       (mg_Providers managementGroup).

(** A partial contract switch: the plan is for another contract than the
    group's and some item of it has no next version. *)
Definition partialSwitch (managementGroup : ManagementGroup) (p : UpgradePlan)
    : Prop :=
  Contract p ≠ groupContract managementGroup
  /\ Exists (λ i, NextVersion i = "") (Providers p).

#[global] Instance partialSwitch_dec mg p : Decision (partialSwitch mg p).
Proof. unfold partialSwitch. apply _. Defined.

(** The upgrade item is the core provider of the group. *)
Definition isCoreItem (managementGroup : ManagementGroup) (item : UpgradeItem)
    : Prop :=
  InstanceName (Provider item) = InstanceName (mg_CoreProvider managementGroup).

#[global] Instance isCoreItem_dec mg item : Decision (isCoreItem mg item).
Proof. unfold isCoreItem. apply _. Defined.

(** The version the target contract is read from: the target version of the
    core provider when it is among the upgrade items (the first such item),
    its current version otherwise. *)
Definition coreTargetVersion (managementGroup : ManagementGroup)
    (upgradeItems : list UpgradeItem) : string :=
  match list_find (isCoreItem managementGroup) upgradeItems with
  | Some (_, item) => NextVersion item
  | None => Version (mg_CoreProvider managementGroup)
  end.

(** The contract which the target version of an upgrade item supports, the
    item being matched with the inventory record of its instance name. *)
Definition itemContract (managementGroup : ManagementGroup) (item : UpgradeItem)
    : option string :=
  match GetProviderByInstanceName managementGroup (InstanceName (Provider item)) with
  | Some provider =>
      match getProviderContractByVersion provider (NextVersion item) with
      | Ok contract => Some contract
      | Err _ => None
      end
  | None => None
  end.

(** The upgrade item with the watched namespace of its inventory record,
    field by field. *)
Definition carryOver (managementGroup : ManagementGroup) (item : UpgradeItem)
    : UpgradeItem :=
  match GetProviderByInstanceName managementGroup (InstanceName (Provider item)) with
  | Some provider =>
      {| Provider :=
           {| ProviderName := ProviderName (Provider item);
              Type_ := Type_ (Provider item);
              Namespace := Namespace (Provider item);
              Version := Version (Provider item);
              WatchedNamespace := WatchedNamespace provider |};
         NextVersion := NextVersion item |}
  | None => item
  end.

(** [item'] is what a plan holds for the upgrade item [item]: the watched
    namespace is the one of the inventory record with the instance name of
    [item], whatever [item] itself carried; the other fields and the next
    version are those of [item]. *)
Definition carriedOver (managementGroup : ManagementGroup)
    (item item' : UpgradeItem) : Prop :=
  ∃ provider,
    GetProviderByInstanceName managementGroup (InstanceName (Provider item))
    = Some provider
    /\ WatchedNamespace (Provider item') = WatchedNamespace provider
    /\ ProviderName (Provider item') = ProviderName (Provider item)
    /\ Type_ (Provider item') = Type_ (Provider item)
    /\ Namespace (Provider item') = Namespace (Provider item)
    /\ Version (Provider item') = Version (Provider item)
    /\ NextVersion item' = NextVersion item.

(** The provider is among the upgrade items, by instance name. *)
Definition supplied (upgradeItems : list UpgradeItem)
    (provider : clusterctlv1.Provider) : Prop :=
  InstanceName provider ∈ (InstanceName ∘ Provider) <$> upgradeItems.

#[global] Instance supplied_dec upgradeItems provider :
  Decision (supplied upgradeItems provider).
Proof. unfold supplied. apply _. Defined.

(** The contract which the current version of a provider supports. *)
Definition currentContractOf (provider : clusterctlv1.Provider) : option string :=
  match getProviderContractByVersion provider (Version provider) with
  | Ok contract => Some contract
  | Err _ => None
  end.

(** A member of the group which passes the last check of
    [createCustomPlan]: it is among the upgrade items or its current version
    supports the target contract. *)
Definition upToDate (upgradeItems : list UpgradeItem) (targetContract : string)
    (provider : clusterctlv1.Provider) : Prop :=
  supplied upgradeItems provider
  \/ currentContractOf provider = Some targetContract.

#[global] Instance upToDate_dec upgradeItems targetContract provider :
  Decision (upToDate upgradeItems targetContract provider).
Proof. unfold upToDate. apply _. Defined.

(** The custom plan of a group for a target contract. *)
Definition customPlan (managementGroup : ManagementGroup)
    (targetContract : string) (upgradeItems : list UpgradeItem) : UpgradePlan :=
  {| Contract := targetContract;
     CoreProvider := mg_CoreProvider managementGroup;
     Providers := carryOver managementGroup <$> upgradeItems |}.

End Planner.

(** The collaborators [doUpgrade] acts through.  [World] is everything
    they can read or change (the management cluster, the repositories); each
    call takes the world it runs in and returns the world it leaves. *)
Class UpgradeEnv : Type := {
  World : Type;
  (** [repository.Components] *)
  Components : Type;
  (** [config.Provider] and [repository.Client] *)
  configRepository : Type;
  providerRepository : Type;
  (** [u.configClient.Providers().Get(name, providerType)] *)
  Providers_Get :
    string -> string -> World -> (configRepository * error) * World;
  (** [u.repositoryClientFactory(configRepository, u.configClient)] *)
  repositoryClientFactory :
    configRepository -> World -> (providerRepository * error) * World;
  (** [providerRepository.Components().Get(options)] *)
  Components_Get :
    providerRepository -> ComponentsOptions -> World
    -> (Components * error) * World;
  (** [u.providerComponents.Delete(options)] *)
  Delete : DeleteOptions -> World -> error * World;
  (** [installComponentsAndUpdateInventory(components,
      u.providerComponents, u.providerInventory)] *)
  installComponentsAndUpdateInventory : Components -> World -> error * World;
  (** What a provider keeps across an upgrade: its custom resource
      definitions and its namespace, as an observation of the world. *)
  Retained : Type;
  crdsAndNamespace : clusterctlv1.Provider -> World -> Retained
}.

(** One call made by [doUpgrade], with what it returned.  A [Deleted] event
    also keeps the worlds before and after the deletion. *)
Inductive event `{E : UpgradeEnv} : Type :=
| Fetched (upgradeItem : UpgradeItem) (r : result Components)
| Deleted (options : DeleteOptions) (before after : World) (err : error)
| Installed (components : Components) (err : error).

(** The state [doUpgrade] runs in: the world, and the calls made so far
    (a ghost field, written by the three wrappers below only). *)
Record state `{E : UpgradeEnv} : Type := {
  world : World;
  trace : list event
}.

Section Upgrade.

Context `{E : UpgradeEnv}.

(** [func (u *providerUpgrader) getUpgradeComponents(provider UpgradeItem)]. *)
Definition getUpgradeComponents (provider : UpgradeItem) (w : World)
    : result Components * World :=
  let '((configRepository, err), w1) :=
    Providers_Get (ProviderName (Provider provider)) (Type_ (Provider provider)) w in
  match err with
  | Some e => (Err e, w1)
  | None =>
      let '((providerRepository, err), w2) :=
        repositoryClientFactory configRepository w1 in
      match err with
      | Some e => (Err e, w2)
      | None =>
          let options :=
            {| co_Version := NextVersion provider;
               TargetNamespace := Namespace (Provider provider);
               WatchingNamespace := WatchedNamespace (Provider provider) |} in
          let '((components, err), w3) :=
            Components_Get providerRepository options w2 in
          match err with
          | Some e => (Err e, w3)
          | None => (Ok components, w3)
          end
      end
  end.

(** The three calls of [doUpgrade], each recording itself in the trace. *)
Definition call_getUpgradeComponents (upgradeItem : UpgradeItem) (st : state)
    : result Components * state :=
  let '(r, w) := getUpgradeComponents upgradeItem (world st) in
  (r, {| world := w; trace := trace st ++ [Fetched upgradeItem r] |}).

Definition call_Delete (options : DeleteOptions) (st : state) : error * state :=
  let '(err, w) := Delete options (world st) in
  (err, {| world := w;
           trace := trace st ++ [Deleted options (world st) w err] |}).

Definition call_install (components : Components) (st : state) : error * state :=
  let '(err, w) := installComponentsAndUpdateInventory components (world st) in
  (err, {| world := w; trace := trace st ++ [Installed components err] |}).

(** [func (u *providerUpgrader) doUpgrade(upgradePlan *UpgradePlan) error]:
    the loop over [upgradePlan.Providers]. *)
Fixpoint doUpgrade_loop (upgradeItems : list UpgradeItem) (st : state)
    : error * state :=
  match upgradeItems with
  | [] => (None, st)
  | upgradeItem :: rest =>
      if bool_decide (NextVersion upgradeItem = "") then
        doUpgrade_loop rest st
      else
        let '(r, st1) := call_getUpgradeComponents upgradeItem st in
        match r with
        | Err e => (Some e, st1)
        | Ok components =>
            let '(err, st2) :=
              call_Delete {| opt_Provider := Provider upgradeItem;
                             IncludeNamespace := false;
                             IncludeCRDs := false |} st1 in
            match err with
            | Some _ => (err, st2)
            | None =>
                let '(err, st3) := call_install components st2 in
                match err with
                | Some _ => (err, st3)
                | None => doUpgrade_loop rest st3
                end
            end
        end
  end.

Definition doUpgrade (upgradePlan : UpgradePlan) (st : state) : error * state :=
  doUpgrade_loop (Providers upgradePlan) st.

Context `{Q : UpgraderQueries}.

(** [func (u *providerUpgrader) ApplyPlan(coreProvider, contract) error]. *)
Definition ApplyPlan (coreProvider : clusterctlv1.Provider) (contract : string)
    (st : state) : error * state :=
  match getManagementGroup coreProvider with
  | Err e => (Some e, st)
  | Ok managementGroup =>
      match getUpgradePlan managementGroup contract with
      | Err e => (Some e, st)
      | Ok upgradePlan => doUpgrade upgradePlan st
      end
  end.

(** [func (u *providerUpgrader) ApplyCustomPlan(coreProvider,
    upgradeItems...) error]. *)
Definition ApplyCustomPlan (coreProvider : clusterctlv1.Provider)
    (upgradeItems : list UpgradeItem) (st : state) : error * state :=
  match createCustomPlan coreProvider upgradeItems with
  | Err e => (Some e, st)
  | Ok upgradePlan => doUpgrade upgradePlan st
  end.

End Upgrade.





End cluster.

(** ** package cluster: the object graph

    [objectgraph.go] is not among the sources at hand; its tests are.  The
    data model is the one the tests read ([uidToNode], a node's [identity],
    [virtual], [owners], [softOwners] and [tenantClusters]); the operations
    are modelled from the specification.  A set of nodes is the set of their
    UIDs, resolved through [uidToNode]. *)

Module objectgraph.

(** [types.UID]. *)
Abbreviation UID_t := string (only parsing).

(** A node's identity: [(APIVersion, Kind, Namespace, Name)] and the UID. *)
Record ObjectReference : Type := {
  APIVersion : string;
  Kind : string;
  Namespace : string;
  Name : string;
  UID : UID_t
}.

(** [metav1.OwnerReference]: [(APIVersion, Kind, Name, UID)]. *)
Record OwnerReference : Type := {
  or_APIVersion : string;
  or_Kind : string;
  or_Name : string;
  or_UID : UID_t
}.

(** A discovered object, as [addObj] reads an [unstructured.Unstructured]. *)
Record object : Type := {
  obj_APIVersion : string;
  obj_Kind : string;
  obj_Namespace : string;
  obj_Name : string;
  obj_UID : UID_t;
  obj_OwnerReferences : list OwnerReference
}.

Record node : Type := {
  identity : ObjectReference;
  owners : gset UID_t;
  softOwners : gset UID_t;
  tenantClusters : gset UID_t;
  virtual : bool;
  isGlobal : bool;
  isCluster : bool;
  isMachine : bool;
  isSecret : bool;
  isConfigMap : bool;
  isCRD : bool;
  isGlobalHierarchy : bool
}.

(** [type objectGraph struct], its [uidToNode] map. *)
Abbreviation objectGraph := (gmap UID_t node) (only parsing).

(** The [(APIVersion, Kind)] pairs behind the type flags which the
    specification names without spelling them out. *)
Class TypeTable : Type := {
  coreClusterType : string -> string -> bool;
  coreMachineType : string -> string -> bool;
  crdType : string -> string -> bool;
  hubType : string -> string -> bool
}.

(** The error of an owner found again under another UID. *)
Definition OwnerIdentityMismatch (o : object) : goerror :=
  New "OwnerIdentityMismatch: %s/%s was referenced as an owner with another UID than %s"
    [obj_Namespace o; obj_Name o; obj_UID o].

Section AddObject.

Context `{T : TypeTable}.

(** Modelled from the spec: the type flags of section 4.3.2, computed from
    [(APIVersion, Kind)] (and an empty namespace for the cluster-scoped
    ones); the node type and [addObject] are in [objectgraph.go]. *)
Definition mkNode (id : ObjectReference) (isVirtual : bool) : node :=
  {| identity := id;
     owners := ∅;
     softOwners := ∅;
     tenantClusters := ∅;
     virtual := isVirtual;
     isGlobal := bool_decide (Namespace id = "");
     isCluster := coreClusterType (APIVersion id) (Kind id);
     isMachine := coreMachineType (APIVersion id) (Kind id);
     isSecret := bool_decide (APIVersion id = "v1") && bool_decide (Kind id = "Secret");
     isConfigMap :=
       bool_decide (APIVersion id = "v1") && bool_decide (Kind id = "ConfigMap");
     isCRD := crdType (APIVersion id) (Kind id);
     isGlobalHierarchy :=
       bool_decide (Namespace id = "") && hubType (APIVersion id) (Kind id) |}.

Definition identityOf (o : object) : ObjectReference :=
  {| APIVersion := obj_APIVersion o;
     Kind := obj_Kind o;
     Namespace := obj_Namespace o;
     Name := obj_Name o;
     UID := obj_UID o |}.

(** The identity of the placeholder for an owner reference found on an
    object of namespace [ns]. *)
Definition identityOfOwner (ns : string) (r : OwnerReference) : ObjectReference :=
  {| APIVersion := or_APIVersion r;
     Kind := or_Kind r;
     Namespace := ns;
     Name := or_Name r;
     UID := or_UID r |}.

(** Same [(APIVersion, Kind, Namespace, Name)]. *)
Definition sameReference (a b : ObjectReference) : Prop :=
  APIVersion a = APIVersion b /\ Kind a = Kind b
  /\ Namespace a = Namespace b /\ Name a = Name b.

#[global] Instance sameReference_dec a b : Decision (sameReference a b).
Proof. unfold sameReference. apply _. Defined.

(** A placeholder stands for the object [o] under another UID. *)
Definition mismatches (o : object) (uid : UID_t) (n : node) : Prop :=
  virtual n = true /\ sameReference (identity n) (identityOf o)
  /\ uid ≠ obj_UID o.

#[global] Instance mismatches_dec o uid n : Decision (mismatches o uid n).
Proof. unfold mismatches. apply _. Defined.

(** Promotion of a placeholder: non-virtual, attributes filled in from the
    object; the edges and tenants it has are kept. *)
Definition promote (n : node) (o : object) : node :=
  let fresh := mkNode (identityOf o) false in
  {| identity := identity fresh;
     owners := owners n;
     softOwners := softOwners n;
     tenantClusters := tenantClusters n;
     virtual := false;
     isGlobal := isGlobal fresh;
     isCluster := isCluster fresh;
     isMachine := isMachine fresh;
     isSecret := isSecret fresh;
     isConfigMap := isConfigMap fresh;
     isCRD := isCRD fresh;
     isGlobalHierarchy := isGlobalHierarchy fresh |}.

Definition withOwner (owner : UID_t) (n : node) : node :=
  {| identity := identity n;
     owners := {[ owner ]} ∪ owners n;
     softOwners := softOwners n;
     tenantClusters := tenantClusters n;
     virtual := virtual n;
     isGlobal := isGlobal n;
     isCluster := isCluster n;
     isMachine := isMachine n;
     isSecret := isSecret n;
     isConfigMap := isConfigMap n;
     isCRD := isCRD n;
     isGlobalHierarchy := isGlobalHierarchy n |}.

(** Modelled from the spec: "locate (or create as virtual) the referenced
    node and add it to [o.owners]", for one owner reference of the object
    with UID [uid] and namespace [ns]. *)
Definition addOwner (ns : string) (uid : UID_t) (g : objectGraph)
    (r : OwnerReference) : objectGraph :=
  let g' :=
    match g !! or_UID r with
    | Some _ => g
    | None => <[ or_UID r := mkNode (identityOfOwner ns r) true ]> g
    end in
  alter (withOwner (or_UID r)) uid g'.

(** Modelled from the spec: the node of the incoming object, "if a node
    with identity [o.UID] exists and is virtual, promote it; otherwise insert
    a new non-virtual node". *)
Definition observe (g : objectGraph) (o : object) : objectGraph :=
  match g !! obj_UID o with
  | Some n =>
      if virtual n then <[ obj_UID o := promote n o ]> g
      else <[ obj_UID o := mkNode (identityOf o) false ]> g
  | None => <[ obj_UID o := mkNode (identityOf o) false ]> g
  end.

(** Modelled from the spec: [addObject] of section 4.3.2 ([addObj] in
    [objectgraph.go]).  An object which the graph already references as an
    owner under another UID raises [OwnerIdentityMismatch]. *)
Definition addObject (g : objectGraph) (o : object) : result objectGraph :=
  if decide (map_Exists (mismatches o) g) then Err (OwnerIdentityMismatch o)
  else
    Ok (foldl (addOwner (obj_Namespace o) (obj_UID o)) (observe g o)
          (obj_OwnerReferences o)).

(** [addObject] over a list of objects, in order. *)
Fixpoint addObjects (g : objectGraph) (objs : list object) : result objectGraph :=
  match objs with
  | [] => Ok g
  | o :: rest => g' ← addObject g o; addObjects g' rest
  end.

End AddObject.

(** The nodes of the graph which carry a given UID. *)
Definition nodesWithUID (g : objectGraph) (uid : UID_t) : list node :=
  filter (λ n, UID (identity n) = uid) (map_to_list g).*2.

(** Every node is stored under its own UID. *)
Definition keyed (g : objectGraph) : Prop :=
  map_Forall (λ uid n, UID (identity n) = uid) g.

(** *** Soft ownership *)

Definition withSoftOwners (extra : gset UID_t) (n : node) : node :=
  {| identity := identity n;
     owners := owners n;
     softOwners := extra ∪ softOwners n;
     tenantClusters := tenantClusters n;
     virtual := virtual n;
     isGlobal := isGlobal n;
     isCluster := isCluster n;
     isMachine := isMachine n;
     isSecret := isSecret n;
     isConfigMap := isConfigMap n;
     isCRD := isCRD n;
     isGlobalHierarchy := isGlobalHierarchy n |}.

(** The initial set of suffixes. *)
Definition defaultSuffixes : list string := ["ca"; "etcd-ca"; "proxy-ca"; "sa"].

(** The secret name is ["<clusterName>-<suffix>"] for a configured suffix. *)
Definition namedAfter (suffixes : list string) (secretName clusterName : string)
    : Prop :=
  Exists (λ suffix, secretName = clusterName +:+ "-" +:+ suffix) suffixes.

#[global] Instance namedAfter_dec suffixes s c : Decision (namedAfter suffixes s c).
Proof. unfold namedAfter. apply _. Defined.

(** The node [c] is a cluster of the secret's namespace after which the
    secret is named. *)
Definition candidate (suffixes : list string) (secret c : node) : Prop :=
  isCluster c = true
  /\ Namespace (identity c) = Namespace (identity secret)
  /\ namedAfter suffixes (Name (identity secret)) (Name (identity c)).

#[global] Instance candidate_dec suffixes secret c :
  Decision (candidate suffixes secret c).
Proof. unfold candidate. apply _. Defined.

(** The candidates of a secret, as a sub-map of the graph. *)
Definition candidates (suffixes : list string) (g : objectGraph) (secret : node)
    : objectGraph :=
  filter (λ kn, candidate suffixes secret kn.2) g.

(** The length of the longest candidate name. *)
Definition longestName (cands : objectGraph) : nat :=
  map_fold (λ _ c acc, String.length (Name (identity c)) `max` acc) 0 cands.

(** Modelled from the spec: the clusters a secret is soft-owned by, the
    match being "greedy on the longest cluster name": of the candidates,
    those with the longest name. *)
Definition softOwnersFor (suffixes : list string) (g : objectGraph)
    (secret : node) : gset UID_t :=
  let cands := candidates suffixes g secret in
  dom (filter (λ kn, String.length (Name (identity kn.2)) = longestName cands)
         cands).

(** Modelled from the spec: [setSoftOwnership] of section 4.3.3
    ([objectgraph.go]). *)
Definition setSoftOwnership (suffixes : list string) (g : objectGraph)
    : objectGraph :=
  (λ n, if isSecret n then withSoftOwners (softOwnersFor suffixes g n) n else n)
    <$> g.

(** The node under [uc] is a candidate of the secret and no candidate of the
    secret has a longer name. *)
Definition longestCandidate (suffixes : list string) (g : objectGraph)
    (secret : node) (uc : UID_t) : Prop :=
  ∃ c, g !! uc = Some c
       /\ candidate suffixes secret c
       /\ ∀ k c', g !! k = Some c' -> candidate suffixes secret c' ->
                   String.length (Name (identity c'))
                   ≤ String.length (Name (identity c)).

(** *** Tenants *)

Definition withTenant (c : UID_t) (n : node) : node :=
  {| identity := identity n;
     owners := owners n;
     softOwners := softOwners n;
     tenantClusters := {[ c ]} ∪ tenantClusters n;
     virtual := virtual n;
     isGlobal := isGlobal n;
     isCluster := isCluster n;
     isMachine := isMachine n;
     isSecret := isSecret n;
     isConfigMap := isConfigMap n;
     isCRD := isCRD n;
     isGlobalHierarchy := isGlobalHierarchy n |}.

(** The parents of a node: its owners and its soft owners. *)
Definition parents (n : node) : gset UID_t := owners n ∪ softOwners n.

(** The nodes of the graph with a parent in [S]: one step along the reverse
    edges. *)
Definition children (g : objectGraph) (S : gset UID_t) : gset UID_t :=
  dom (filter (λ kn, parents kn.2 ∩ S ≠ ∅) g).

(** Breadth-first traversal along the reverse edges: [frontier] is the last
    level reached, [visited] everything reached so far.  A level is never
    empty and adds nodes of the graph not seen before, so that as many
    levels as the graph has nodes exhaust it (see [bfs_reaches]). *)
Fixpoint bfs (g : objectGraph) (fuel : nat) (frontier visited : gset UID_t)
    : gset UID_t :=
  match fuel with
  | 0 => visited
  | S fuel' =>
      let next := children g frontier ∖ visited in
      if decide (next = ∅) then visited
      else bfs g fuel' next (visited ∪ next)
  end.

(** A cluster and all its descendants. *)
Definition descendants (g : objectGraph) (c : UID_t) : gset UID_t :=
  bfs g (size g) {[ c ]} {[ c ]}.

(** The cluster nodes of the graph. *)
Definition getClusters (g : objectGraph) : list UID_t :=
  elements (dom (filter (λ kn, isCluster kn.2 = true) g)).

(** Add the cluster [c] to the tenants of every node of [S]. *)
Definition setClusterTenant (c : UID_t) (S : gset UID_t) (g : objectGraph)
    : objectGraph :=
  map_imap (λ uid n, Some (if decide (uid ∈ S) then withTenant c n else n)) g.

(** Modelled from the spec: [setClusterTenants] of section 4.3.4
    ([objectgraph.go]): beginning with every cluster node, that node and,
    breadth-first along the reverse edges, each of its descendants get the
    cluster added to their tenants. *)
Definition setClusterTenants (g : objectGraph) : objectGraph :=
  foldr (λ c acc, setClusterTenant c (descendants g c) acc) g (getClusters g).

(** [x] has [y] among its owners or soft owners. *)
Definition parentOf (g : objectGraph) (x y : UID_t) : Prop :=
  ∃ n, g !! x = Some n /\ y ∈ parents n.

(** [y] is a child of [x]: one step along the reverse edges. *)
Definition childOf (g : objectGraph) (x y : UID_t) : Prop := parentOf g y x.

(** Two nodes which differ in their tenants at most. *)
Definition sameButTenants (n n' : node) : Prop :=
  identity n' = identity n /\ owners n' = owners n
  /\ softOwners n' = softOwners n /\ virtual n' = virtual n
  /\ isCluster n' = isCluster n /\ isSecret n' = isSecret n.

(** [c] is a cluster node of the graph reached from [x] by following owner
    and soft owner edges upward, in any number of steps ([x] itself
    included). *)
Definition clusterAncestor (g : objectGraph) (x c : UID_t) : Prop :=
  (∃ n, g !! c = Some n /\ isCluster n = true) /\ rtc (parentOf g) x c.

(** *** Discovery types *)














End objectgraph.

(** ** Scenarios

    Concrete collaborators and inputs, after the end-to-end scenarios of the
    specification; the properties below are instantiated on them. *)

Module scenario.

Import clusterctlv1 cluster objectgraph.

(** *** An inventory with one management group *)

Definition mkProvider (name type version : string) : clusterctlv1.Provider :=
  {| ProviderName := name;
     Type_ := type;
     clusterctlv1.Namespace := name +:+ "-system";
     Version := version;
     WatchedNamespace := "watched-" +:+ name |}.

Definition coreProvider : clusterctlv1.Provider :=
  mkProvider "cluster-api" "CoreProvider" "v0.3.10".
Definition bootstrapProvider : clusterctlv1.Provider :=
  mkProvider "kubeadm" "BootstrapProvider" "v0.3.9".
Definition infraProvider : clusterctlv1.Provider :=
  mkProvider "aws" "InfrastructureProvider" "v0.5.4".

Definition group : ManagementGroup :=
  {| mg_CoreProvider := coreProvider;
     mg_Providers := [coreProvider; bootstrapProvider; infraProvider] |}.

(** What is known of the releases of one provider: its current contract,
    the contracts considered for upgrade, the next version per contract and
    the contract of each version. *)
Record releases : Type := {
  rel_current : string;
  rel_contracts : list string;
  rel_next : list (string * string);
  rel_series : list (string * string)
}.

Definition lookup_assoc (key : string) (table : list (string * string))
    : option string :=
  snd <$> find (λ kv, bool_decide (kv.1 = key)) table.

(** The releases of scenario S3: core [v0.3.11] and [v0.4.1], bootstrap
    [v0.4.0], nothing newer for the infrastructure provider. *)
Definition releasesOf (contracts : list string) (name : string) : option releases :=
  if bool_decide (name = "cluster-api") then
    Some {| rel_current := "v1alpha3";
            rel_contracts := contracts;
            rel_next := [("v1alpha3", "0.3.11"); ("v1alpha4", "0.4.1")];
            rel_series := [("v0.3.10", "v1alpha3"); ("v0.3.11", "v1alpha3");
                           ("v0.4.1", "v1alpha4")] |}
  else if bool_decide (name = "kubeadm") then
    Some {| rel_current := "v1alpha3";
            rel_contracts := ["v1alpha3"; "v1alpha4"];
            rel_next := [("v1alpha4", "0.4.0")];
            rel_series := [("v0.3.9", "v1alpha3"); ("v0.4.0", "v1alpha4")] |}
  else if bool_decide (name = "aws") then
    Some {| rel_current := "v1alpha3";
            rel_contracts := ["v1alpha3"];
            rel_next := [];
            rel_series := [("v0.5.4", "v1alpha3")] |}
  else None.

Definition noReleases : releases :=
  {| rel_current := ""; rel_contracts := []; rel_next := []; rel_series := [] |}.

(** The collaborators of the planner over these releases; [contracts] is
    what the core provider's metadata yields as contracts for upgrade. *)
Definition queries (contracts : list string) : UpgraderQueries :=
  {| upgradeInfo := releases;
     semver := string;
     Metadata := list (string * string);
     ReleaseSeries := string;
     instanceName := λ name type namespace, namespace +:+ "/" +:+ name;
     GetManagementGroups := ([group], None);
     FindManagementGroupByProviderInstanceName := λ groups name,
       find (λ mg, bool_decide
                     (name ∈ (λ p, clusterctlv1.Namespace p +:+ "/" +:+ ProviderName p)
                               <$> mg_Providers mg)) groups;
     GetProviderByInstanceName := λ mg name,
       find (λ p, bool_decide
                    (clusterctlv1.Namespace p +:+ "/" +:+ ProviderName p = name))
         (mg_Providers mg);
     getUpgradeInfo := λ provider,
       match releasesOf contracts (ProviderName provider) with
       | Some r => (r, None)
       | None => (noReleases, Errorf "no releases for %s" [ProviderName provider])
       end;
     currentContract := rel_current;
     getContractsForUpgrade := rel_contracts;
     getLatestNextVersion := λ r contract, lookup_assoc contract (rel_next r);
     versionTag := λ v, match v with Some v => "v" +:+ v | None => "" end;
     ParseSemantic := λ s,
       if bool_decide (s = "") then ("", Errorf "could not parse %q as version" [s])
       else (s, None);
     metadata := rel_series;
     GetReleaseSeriesForVersion := λ series v, lookup_assoc v series;
     rs_Contract := λ contract, contract |}.

(** Scenario S3. *)
Definition inventory : UpgraderQueries := queries ["v1alpha3"; "v1alpha4"].

(** The same inventory, the metadata of the core provider yielding no
    contract at all. *)
Definition invalidMetadata : UpgraderQueries := queries [].

(** Scenario S4: the user asks for core [v0.4.1] and bootstrap [v0.4.0]. *)
Definition requestedItems : list UpgradeItem :=
  [ {| Provider := coreProvider; NextVersion := "v0.4.1" |};
    {| Provider := bootstrapProvider; NextVersion := "v0.4.0" |} ].

(** A request within the current contract: core [v0.3.11] alone. *)
Definition patchItems : list UpgradeItem :=
  [ {| Provider := coreProvider; NextVersion := "v0.3.11" |} ].

(** A request whose bootstrap item stays on the current contract while the
    core provider moves on. *)
Definition mixedItems : list UpgradeItem :=
  [ {| Provider := coreProvider; NextVersion := "v0.4.1" |};
    {| Provider := bootstrapProvider; NextVersion := "v0.3.9" |} ].

(** A request as typed by the user: the core provider by name and
    namespace, with neither its current version nor a watched namespace. *)
Definition bareCoreItem : UpgradeItem :=
  {| Provider :=
       {| ProviderName := "cluster-api";
          Type_ := "CoreProvider";
          clusterctlv1.Namespace := "cluster-api-system";
          Version := "";
          WatchedNamespace := "" |};
     NextVersion := "v0.3.11" |}.

Definition bareItems : list UpgradeItem := [bareCoreItem].

(** The plan for [bareItems]: the watched namespace is the one recorded in
    the inventory. *)
Definition carriedPlan : UpgradePlan :=
  {| Contract := "v1alpha3";
     CoreProvider := coreProvider;
     Providers :=
       [ {| Provider :=
              {| ProviderName := "cluster-api";
                 Type_ := "CoreProvider";
                 clusterctlv1.Namespace := "cluster-api-system";
                 Version := "";
                 WatchedNamespace := "watched-cluster-api" |};
            NextVersion := "v0.3.11" |} ] |}.

(** *** A management cluster *)

(** The controllers running, by provider name and version, the CRDs and the
    namespaces. *)
Record clusterState : Type := {
  controllers : list (string * string);
  crds : list string;
  namespaces : list string
}.

Definition without (name : string) (l : list string) : list string :=
  filter (λ x, x ≠ name) l.

(** The collaborators of [doUpgrade] over a [clusterState]; the components
    of version [unavailable] cannot be fetched. *)
Definition environment (unavailable : string) : UpgradeEnv :=
  {| World := clusterState;
     Components := string * string;
     configRepository := string;
     providerRepository := string;
     Providers_Get := λ name type w, ((name, None), w);
     repositoryClientFactory := λ config w, ((config, None), w);
     Components_Get := λ repo options w,
       if bool_decide (co_Version options = unavailable) then
         ((("", ""), Errorf "version %s not found" [co_Version options]), w)
       else (((repo, co_Version options), None), w);
     Delete := λ options w,
       let name := ProviderName (opt_Provider options) in
       (None,
        {| controllers := filter (λ c, c.1 ≠ name) (controllers w);
           crds := if IncludeCRDs options then without name (crds w) else crds w;
           namespaces :=
             if IncludeNamespace options
             then without (clusterctlv1.Namespace (opt_Provider options))
                    (namespaces w)
             else namespaces w |});
     installComponentsAndUpdateInventory := λ components w,
       (None,
        {| controllers := components :: controllers w;
           crds := components.1 :: without components.1 (crds w);
           namespaces := namespaces w |});
     Retained := bool * bool;
     crdsAndNamespace := λ provider w,
       (bool_decide (ProviderName provider ∈ crds w),
        bool_decide (clusterctlv1.Namespace provider ∈ namespaces w)) |}.

Definition cluster0 : clusterState :=
  {| controllers := [("cluster-api", "v0.3.10"); ("kubeadm", "v0.3.9");
                     ("aws", "v0.5.4")];
     crds := ["cluster-api"; "kubeadm"; "aws"];
     namespaces := ["cluster-api-system"; "kubeadm-system"; "aws-system"] |}.

(** The environment in which every version can be fetched, and the state
    [doUpgrade] starts in. *)
Definition env : UpgradeEnv := environment "".
Definition state0 : @state env := @Build_state env cluster0 [].

(** The plan of scenario S3 for the current contract: core to [v0.3.11],
    nothing for the two other providers. *)
Definition patchPlan : UpgradePlan :=
  {| Contract := "v1alpha3";
     CoreProvider := coreProvider;
     Providers :=
       [ {| Provider := coreProvider; NextVersion := "v0.3.11" |};
         {| Provider := bootstrapProvider; NextVersion := "" |};
         {| Provider := infraProvider; NextVersion := "" |} ] |}.

(** *** Objects *)

Definition types : TypeTable :=
  {| coreClusterType := λ apiVersion kind,
       bool_decide (apiVersion = "cluster.x-k8s.io/v1alpha3")
       && bool_decide (kind = "Cluster");
     coreMachineType := λ apiVersion kind,
       bool_decide (apiVersion = "cluster.x-k8s.io/v1alpha3")
       && bool_decide (kind = "Machine");
     crdType := λ apiVersion kind,
       bool_decide (kind = "CustomResourceDefinition");
     hubType := λ apiVersion kind,
       bool_decide (kind = "DummyInfrastructurePrincipal") |}.

Definition mkObject (apiVersion kind namespace name : string)
    (refs : list OwnerReference) : object :=
  {| obj_APIVersion := apiVersion;
     obj_Kind := kind;
     obj_Namespace := namespace;
     obj_Name := name;
     obj_UID := kind +:+ ", " +:+ namespace +:+ "/" +:+ name;
     obj_OwnerReferences := refs |}.

Definition ownedBy (o : object) : OwnerReference :=
  {| or_APIVersion := obj_APIVersion o;
     or_Kind := obj_Kind o;
     or_Name := obj_Name o;
     or_UID := obj_UID o |}.

Definition fakeCluster (name : string) : object :=
  mkObject "cluster.x-k8s.io/v1alpha3" "Cluster" "ns1" name [].

Definition caSecret (clusterName : string) : object :=
  mkObject "v1" "Secret" "ns1" (clusterName +:+ "-ca") [].

Definition kubeconfigSecret (clusterName : string) : object :=
  mkObject "v1" "Secret" "ns1" (clusterName +:+ "-kubeconfig")
    [ownedBy (fakeCluster clusterName)].

Definition infraCluster (clusterName : string) : object :=
  mkObject "infrastructure.cluster.x-k8s.io/v1alpha3" "DummyInfrastructureCluster"
    "ns1" clusterName [ownedBy (fakeCluster clusterName)].

(** The graph a list of objects builds from the empty graph (the empty
    graph again should [addObject] fail). *)
Definition graphOf (objs : list object) : gmap string node :=
  match addObjects (T := types) ∅ objs with
  | Ok g => g
  | Err _ => ∅
  end.

(** Scenario S5, next to a cluster [foo]. *)
Definition dashedGraph : gmap string node :=
  graphOf [fakeCluster "foo"; fakeCluster "foo-bar";
           caSecret "foo-bar"; kubeconfigSecret "foo-bar"].

(** The node of the secret [foo-bar-ca] as discovered. *)
Definition dashedCA : node :=
  mkNode (T := types) (identityOf (caSecret "foo-bar")) false.

(** Scenario S6: a machine owned by a machine set. *)
Definition machineSet : object :=
  mkObject "cluster.x-k8s.io/v1alpha3" "MachineSet" "ns1" "ms1" [].
Definition machine : object :=
  mkObject "cluster.x-k8s.io/v1alpha3" "Machine" "ns1" "m1" [ownedBy machineSet].

(** A cluster with its infrastructure and secrets, and an orphan. *)
Definition orphan : object :=
  mkObject "infrastructure.cluster.x-k8s.io/v1alpha3"
    "DummyInfrastructureMachineTemplate" "ns1" "orphan" [].
Definition tenantGraph : gmap string node :=
  graphOf [fakeCluster "foo"; infraCluster "foo"; caSecret "foo";
           kubeconfigSecret "foo"; orphan].

(** The node of the secret [foo-ca] once soft ownership and tenants are
    set. *)
Definition tenantCA : node :=
  withTenant "Cluster, ns1/foo"
    (withSoftOwners {[ "Cluster, ns1/foo" ]}
       (mkNode (T := types) (identityOf (caSecret "foo")) false)).

End scenario.

(** ** package config: the rest of the in-memory reader *)

Module memoryreader.

Import config.

Section Marshal.

(** [yaml.Marshal] at the two types the reader encodes: the bytes, read as a
    string, and the error. *)
Variable yaml_Marshal_providers : list configProvider -> string * error.
Variable yaml_Marshal_imageMetas : gmap string imageMeta -> string * error.

(** [func (f *MemoryReader) Init(config string) error]: the reader as the
    call leaves it, and the returned error. *)
Definition Init (f : MemoryReader) (config_ : string) : MemoryReader * error :=
  let '(data, err) := yaml_Marshal_providers (providers f) in
  match err with
  | Some _ => (f, err)
  | None =>
      let f1 := Set_ f "providers" data in
      let '(data, err) := yaml_Marshal_imageMetas (imageMetas f1) in
      match err with
      | Some _ => (f1, err)
      | None => (Set_ f1 "images" data, None)
      end
  end.

(** [func (f *MemoryReader) WithProvider(name, ttype, url) *MemoryReader]:
    the error of [yaml.Marshal] is dropped. *)
Definition WithProvider (f : MemoryReader) (name ttype url : string)
    : MemoryReader :=
  let providers' :=
    providers f ++ [{| cp_Name := name; cp_URL := url; cp_Type := ttype |}] in
  let '(yaml, _) := yaml_Marshal_providers providers' in
  {| variables := <["providers" := yaml]> (variables f);
     providers := providers';
     imageMetas := imageMetas f |}.

(** [func (f *MemoryReader) WithImageMeta(component, repository, tag)
    *MemoryReader]. *)
Definition WithImageMeta (f : MemoryReader) (component repository tag : string)
    : MemoryReader :=
  let imageMetas' :=
    <[component := {| Repository := repository; Tag := tag |}]> (imageMetas f) in
  let '(yaml, _) := yaml_Marshal_imageMetas imageMetas' in
  {| variables := <["images" := yaml]> (variables f);
     providers := providers f;
     imageMetas := imageMetas' |}.

(** A provider as [WithProvider] takes it: name, type and URL. *)
Definition withProviders (f : MemoryReader)
    (ps : list (string * string * string)) : MemoryReader :=
  foldl (λ f p, WithProvider f p.1.1 p.1.2 p.2) f ps.

Definition configProviderOf (p : string * string * string) : configProvider :=
  {| cp_Name := p.1.1; cp_URL := p.2; cp_Type := p.1.2 |}.

End Marshal.

End memoryreader.

(** ** package repository: the in-memory repository *)

Module repository.

(** [type MemoryRepository struct]; the content of a file is its bytes,
    read as a string. *)
Record MemoryRepository : Type := {
  defaultVersion : string;
  rootPath : string;
  componentsPath : string;
  versions : gmap string bool;
  files : gmap string string
}.

(** [func NewMemoryRepository() *MemoryRepository]. *)
Definition NewMemoryRepository : MemoryRepository :=
  {| defaultVersion := ""; rootPath := ""; componentsPath := "";
     versions := ∅; files := ∅ |}.

(** [func (f *MemoryRepository) WithPaths(rootPath, componentsPath)]. *)
Definition WithPaths (f : MemoryRepository) (root components : string)
    : MemoryRepository :=
  {| defaultVersion := defaultVersion f;
     rootPath := root;
     componentsPath := components;
     versions := versions f;
     files := files f |}.

(** [func vpath(version string, path string) string]. *)
Definition vpath (version path : string) : string :=
  version +:+ "/" +:+ path.

(** [GetFile], the loop over [f.files]: the entries in the order the map
    yields them. *)
Fixpoint GetFile_loop (entries : list (string * string)) (target : string)
    : option string :=
  match entries with
  | [] => None
  | (p, c) :: rest =>
      if bool_decide (p = target) then Some c else GetFile_loop rest target
  end.

Section Releases.

(** [LatestRelease(f)] and [LatestContractRelease(f, contract)] of the
    package, and the constant [clusterv1.GroupVersion.Version]; none is
    among the sources at hand. *)
Variable LatestRelease : MemoryRepository -> string * error.
Variable LatestContractRelease : MemoryRepository -> string -> string * error.
Variable clusterv1_GroupVersion_Version : string.

(** [func (f *MemoryRepository) GetFile(version, path) ([]byte, error)]. *)
Definition GetFile (f : MemoryRepository) (version path : string)
    : result string :=
  let version :=
    if bool_decide (version = "") then defaultVersion f else version in
  version ←
    (if bool_decide (version = "latest") then
       let '(version, err) := LatestRelease f in
       match err with
       | Some e => Err e
       | None => Ok version
       end
     else Ok version);
  match versions f !! version with
  | None => Err (New "unable to get files for version %s" [version])
  | Some _ =>
      match GetFile_loop (map_to_list (files f)) (vpath version path) with
      | Some c => Ok c
      | None =>
          Err (New "unable to get file %s for version %s" [path; version])
      end
  end.

(** [func (f *MemoryRepository) GetVersions() ([]string, error)]: the keys
    in the order the map yields them. *)
Definition GetVersions (f : MemoryRepository) : list string * error :=
  ((map_to_list (versions f)).*1, None).

(** [func (f *MemoryRepository) updateVersions()]. *)
Definition updateVersions (f : MemoryRepository) : MemoryRepository :=
  let '(latest, err) := LatestContractRelease f clusterv1_GroupVersion_Version in
  match err with
  | Some _ => f
  | None =>
      {| defaultVersion := latest;
         rootPath := rootPath f;
         componentsPath := componentsPath f;
         versions := versions f;
         files := files f |}
  end.

(** [func (f *MemoryRepository) WithFile(version, path, content)]. *)
Definition WithFile (f : MemoryRepository) (version path content : string)
    : MemoryRepository :=
  let f1 :=
    {| defaultVersion := defaultVersion f;
       rootPath := rootPath f;
       componentsPath := componentsPath f;
       versions := <[version := true]> (versions f);
       files := <[vpath version path := content]> (files f) |} in
  match files f1 !! vpath version "metadata.yaml" with
  | Some _ => updateVersions f1
  | None => f1
  end.

End Releases.

End repository.

(** ** package predicates *)

Module predicates.

Section Events.

(** The four event types of controller-runtime and the object an event is
    about ([e.ObjectNew] for an update, [e.Object] otherwise). *)
Variables UpdateEvent CreateEvent DeleteEvent GenericEvent Object : Type.
Variable ObjectNew : UpdateEvent -> Object.
Variable CreateObject : CreateEvent -> Object.
Variable DeleteObject : DeleteEvent -> Object.
Variable GenericObject : GenericEvent -> Object.

(** [annotations.HasPausedAnnotation] and [labels.HasWatchLabel]. *)
Variable HasPausedAnnotation : Object -> bool.
Variable HasWatchLabel : Object -> string -> bool.

(** [predicate.Funcs], every field set: [All] and [Any] call the fields
    themselves, so that a nil field would panic.  The logger, which the
    predicates only write to, is left out. *)
Record Funcs : Type := {
  UpdateFunc : UpdateEvent -> bool;
  CreateFunc : CreateEvent -> bool;
  DeleteFunc : DeleteEvent -> bool;
  GenericFunc : GenericEvent -> bool
}.

(** The loop of [All]: false at the first predicate which returns false. *)
Fixpoint All_loop {Ev : Type} (field : Funcs -> Ev -> bool)
    (predicates : list Funcs) (e : Ev) : bool :=
  match predicates with
  | [] => true
  | p :: rest => if negb (field p e) then false else All_loop field rest e
  end.

(** The loop of [Any]: true at the first predicate which returns true. *)
Fixpoint Any_loop {Ev : Type} (field : Funcs -> Ev -> bool)
    (predicates : list Funcs) (e : Ev) : bool :=
  match predicates with
  | [] => false
  | p :: rest => if field p e then true else Any_loop field rest e
  end.

(** [func All(logger, predicates ...predicate.Funcs) predicate.Funcs]. *)
Definition All (predicates : list Funcs) : Funcs :=
  {| UpdateFunc := All_loop UpdateFunc predicates;
     CreateFunc := All_loop CreateFunc predicates;
     DeleteFunc := All_loop DeleteFunc predicates;
     GenericFunc := All_loop GenericFunc predicates |}.

(** [func Any(logger, predicates ...predicate.Funcs) predicate.Funcs]. *)
Definition Any (predicates : list Funcs) : Funcs :=
  {| UpdateFunc := Any_loop UpdateFunc predicates;
     CreateFunc := Any_loop CreateFunc predicates;
     DeleteFunc := Any_loop DeleteFunc predicates;
     GenericFunc := Any_loop GenericFunc predicates |}.

(** [func processIfNotPaused(logger, obj) bool]. *)
Definition processIfNotPaused (obj : Object) : bool :=
  if HasPausedAnnotation obj then false else true.

(** [func processIfLabelMatch(logger, obj, labelValue) bool]. *)
Definition processIfLabelMatch (obj : Object) (labelValue : string) : bool :=
  if bool_decide (labelValue = "") then true
  else if HasWatchLabel obj labelValue then true
  else false.

(** [func ResourceHasFilterLabel(logger, labelValue) predicate.Funcs]. *)
Definition ResourceHasFilterLabel (labelValue : string) : Funcs :=
  {| UpdateFunc := λ e, processIfLabelMatch (ObjectNew e) labelValue;
     CreateFunc := λ e, processIfLabelMatch (CreateObject e) labelValue;
     DeleteFunc := λ e, processIfLabelMatch (DeleteObject e) labelValue;
     GenericFunc := λ e, processIfLabelMatch (GenericObject e) labelValue |}.

(** [func ResourceNotPaused(logger) predicate.Funcs]. *)
Definition ResourceNotPaused : Funcs :=
  {| UpdateFunc := λ e, processIfNotPaused (ObjectNew e);
     CreateFunc := λ e, processIfNotPaused (CreateObject e);
     DeleteFunc := λ e, processIfNotPaused (DeleteObject e);
     GenericFunc := λ e, processIfNotPaused (GenericObject e) |}.

(** [func ResourceNotPausedAndHasFilterLabel(logger, labelValue)
    predicate.Funcs]. *)
Definition ResourceNotPausedAndHasFilterLabel (labelValue : string) : Funcs :=
  All [ResourceNotPaused; ResourceHasFilterLabel labelValue].

(** Two predicates which answer alike on every event. *)
Definition sameAnswers (p q : Funcs) : Prop :=
  (∀ e, UpdateFunc p e = UpdateFunc q e)
  /\ (∀ e, CreateFunc p e = CreateFunc q e)
  /\ (∀ e, DeleteFunc p e = DeleteFunc q e)
  /\ (∀ e, GenericFunc p e = GenericFunc q e).

End Events.

End predicates.

(** ** Further inputs

    Inputs on which the further properties below are instantiated. *)

Module examples.

Import config clusterctlv1 cluster scenario.

(** *** The planner *)

(** A provider of which no release is known, alone in a management group
    of its own. *)
Definition strangerProvider : clusterctlv1.Provider :=
  mkProvider "gcp" "InfrastructureProvider" "v0.1.0".

Definition strangerGroup : ManagementGroup :=
  {| mg_CoreProvider := strangerProvider; mg_Providers := [strangerProvider] |}.

(** The inventory of scenario S3 with this second management group. *)
Definition twoGroups : UpgraderQueries :=
  {| upgradeInfo := @upgradeInfo inventory;
     semver := @semver inventory;
     Metadata := @Metadata inventory;
     ReleaseSeries := @ReleaseSeries inventory;
     instanceName := @instanceName inventory;
     GetManagementGroups := ([group; strangerGroup], None);
     FindManagementGroupByProviderInstanceName :=
       @FindManagementGroupByProviderInstanceName inventory;
     GetProviderByInstanceName := @GetProviderByInstanceName inventory;
     getUpgradeInfo := @getUpgradeInfo inventory;
     currentContract := @currentContract inventory;
     getContractsForUpgrade := @getContractsForUpgrade inventory;
     getLatestNextVersion := @getLatestNextVersion inventory;
     versionTag := @versionTag inventory;
     ParseSemantic := @ParseSemantic inventory;
     metadata := @metadata inventory;
     GetReleaseSeriesForVersion := @GetReleaseSeriesForVersion inventory;
     rs_Contract := @rs_Contract inventory |}.

(** A request for a provider which is no member of the group. *)
Definition strangerItem : UpgradeItem :=
  {| Provider := strangerProvider; NextVersion := "v0.2.0" |}.

(** A plan with nothing to upgrade. *)
Definition idlePlan : UpgradePlan :=
  {| Contract := "v1alpha3";
     CoreProvider := coreProvider;
     Providers :=
       [ {| Provider := bootstrapProvider; NextVersion := "" |};
         {| Provider := infraProvider; NextVersion := "" |} ] |}.

(** *** The in-memory reader *)

(** Encoders standing for [yaml.Marshal]: the names of the providers, the
    components of the image metadata. *)
Definition marshalProviders (ps : list configProvider) : string * error :=
  (String.concat "," (cp_Name <$> ps), None).

Definition marshalImageMetas (m : gmap string imageMeta) : string * error :=
  (String.concat "," (map_to_list m).*1, None).

Definition reader0 : MemoryReader :=
  memoryreader.WithImageMeta marshalImageMetas
    (memoryreader.WithProvider marshalProviders
       (WithVar NewMemoryReader "NAMESPACE" "default")
       "aws" "InfrastructureProvider" "https://example.com/aws")
    "cert-manager" "quay.io/jetstack" "v1.1.0".

(** *** The in-memory repository *)

(** A repository package in which no release can be determined. *)
Definition noLatestRelease (f : repository.MemoryRepository) : string * error :=
  ("", Errorf "no release found" []).

Definition noLatestContractRelease (f : repository.MemoryRepository)
    (contract : string) : string * error :=
  ("", Errorf "no release found for %s" [contract]).

Definition repository0 : repository.MemoryRepository :=
  repository.WithFile noLatestContractRelease "v1alpha4"
    repository.NewMemoryRepository "v1.0.0" "components.yaml" "kind: Deployment".

End examples.

(* ================================================================= *)
(** * Properties *)

(** ** The in-memory reader *)

Section MemoryReaderProperties.

Import config.

(** C10: for a key that was never set, [UnmarshalKey] returns [nil] and
    leaves the output value as it was, although [Get] on the same key
    returns the error saying the variable is not set. *)
Theorem UnmarshalKey_unset_key_is_silent
    (V : Type) (yaml_Unmarshal : string -> V -> V * error)
    (f : MemoryReader) (key : string) (rawval : V) :
  variables f !! key = None ->
  UnmarshalKey V yaml_Unmarshal f key rawval = (rawval, None)
  /\ Get f key = ("", Some (New "value for variable %q is not set" [key])).
Proof.
  intros Hunset. unfold UnmarshalKey, Get. rewrite Hunset. split; reflexivity.
Qed.

End MemoryReaderProperties.

(** ** The upgrade planner *)

Section PlannerProperties.

Import clusterctlv1 cluster.
Context `{Q : UpgraderQueries}.

Lemma isPartialUpgrade_loop_Exists (items : list UpgradeItem) :
  isPartialUpgrade_loop items = true <-> Exists (λ i, NextVersion i = "") items.
Proof.
  induction items as [|i items IH]; simpl.
  - split; [discriminate | intros H; inversion H].
  - case_bool_decide as Hi.
    + split; [intros _; by left | done].
    + rewrite IH. split; [by right | ].
      intros H. inversion H; subst; [contradiction | assumption].
Qed.

Lemma isPartialUpgrade_Exists (p : UpgradePlan) :
  isPartialUpgrade p = true <-> Exists (λ i, NextVersion i = "") (Providers p).
Proof. apply isPartialUpgrade_loop_Exists. Qed.

Lemma getUpgradePlan_loop_ok providers contract upgradeItems :
  Forall (λ provider, (getUpgradeInfo provider).2 = None) providers ->
  getUpgradePlan_loop providers contract upgradeItems
  = Ok (upgradeItems ++ (upgradeItemFor contract <$> providers)).
Proof.
  intros Hall. revert upgradeItems.
  induction Hall as [|provider providers Hp _ IH]; intros upgradeItems; simpl.
  - by rewrite app_nil_r.
  - destruct (getUpgradeInfo provider) as [info err] eqn:Hinfo.
    simpl in Hp. subst err. rewrite IH, <- app_assoc. simpl.
    unfold upgradeItemFor at 2. by rewrite Hinfo.
Qed.

Lemma getUpgradePlan_ok managementGroup contract :
  Forall (λ provider, (getUpgradeInfo provider).2 = None)
    (mg_Providers managementGroup) ->
  getUpgradePlan managementGroup contract
  = Ok (candidatePlan managementGroup contract).
Proof.
  intros Hall. unfold getUpgradePlan.
  by rewrite (getUpgradePlan_loop_ok _ _ [] Hall).
Qed.

(** The plans [Plan] keeps for a management group. *)
Lemma Plan_contracts_ok managementGroup contracts ret :
  Forall (λ provider, (getUpgradeInfo provider).2 = None)
    (mg_Providers managementGroup) ->
  Plan_contracts managementGroup
    (getUpgradeInfo (mg_CoreProvider managementGroup)).1 contracts ret
  = Ok (ret ++ filter (λ p, ¬ partialSwitch managementGroup p)
                 (candidatePlan managementGroup <$> contracts)).
Proof.
  intros Hall. revert ret.
  induction contracts as [|contract contracts IH]; intros ret; simpl.
  - by rewrite app_nil_r.
  - rewrite (getUpgradePlan_ok _ _ Hall).
    destruct (isPartialUpgrade (candidatePlan managementGroup contract)) eqn:Hp;
      simpl.
    + case_bool_decide as Hc; simpl.
      * rewrite IH, filter_cons_True, <- app_assoc; [done | ].
        intros [Hne _]. simpl in Hne. by rewrite <- Hc in Hne.
      * rewrite IH, filter_cons_False; [done | ].
        intros Hkeep. apply Hkeep. split.
        -- simpl. intros ->. by apply Hc.
        -- by apply isPartialUpgrade_Exists.
    + rewrite IH, filter_cons_True, <- app_assoc; [done | ].
      intros [_ Hex]. apply isPartialUpgrade_Exists in Hex. congruence.
Qed.

Lemma Plan_groups_ok managementGroups ret :
  Forall groupReadable managementGroups ->
  Plan_groups managementGroups ret
  = (ret ++ (managementGroups ≫= λ mg,
               filter (λ p, ¬ partialSwitch mg p)
                 (candidatePlan mg <$> groupContracts mg)),
     None).
Proof.
  intros Hall. revert ret.
  induction Hall as [|mg groups (Hcore & Hcontracts & Hproviders) _ IH];
    intros ret; simpl.
  - by rewrite app_nil_r.
  - unfold groupContracts in *.
    destruct (getUpgradeInfo (mg_CoreProvider mg)) as [info err] eqn:Hinfo.
    simpl in *. subst err.
    case_bool_decide as Hlen.
    + by destruct (getContractsForUpgrade info).
    + pose proof (Plan_contracts_ok mg (getContractsForUpgrade info) ret Hproviders)
        as Hstep.
      rewrite Hinfo in Hstep. simpl in Hstep. rewrite Hstep.
      by rewrite IH, <- app_assoc.
Qed.

(** C1: when the inventory and the upgrade information of every provider
    are available, [Plan] succeeds, and for every management group and
    every contract considered for it: the candidate plan is dropped if its
    contract differs from the group's current contract and one of its items
    has an empty next version; the candidate plan for the group's current
    contract is returned, whether or not some of its items have an empty
    next version. *)
Theorem Plan_drops_partial_contract_switch
    (managementGroups : list ManagementGroup) :
  GetManagementGroups = (managementGroups, None) ->
  Forall groupReadable managementGroups ->
  ∃ plans,
    Plan = (plans, None)
    /\ ∀ mg contract,
        mg ∈ managementGroups ->
        contract ∈ groupContracts mg ->
        (contract ≠ groupContract mg ->
         Exists (λ i, NextVersion i = "") (Providers (candidatePlan mg contract)) ->
         candidatePlan mg contract ∉ plans)
        /\ (contract = groupContract mg -> candidatePlan mg contract ∈ plans).
Proof.
  intros Hgroups Hall. eexists. split.
  - unfold Plan. rewrite Hgroups. apply Plan_groups_ok, Hall.
  - intros mg contract Hmg Hcontract. simpl. split.
    + intros Hne Hex Hin.
      apply list_elem_of_bind in Hin as (mg' & Hin & _).
      apply list_elem_of_filter in Hin as [Hkeep Hin].
      apply list_elem_of_fmap in Hin as (contract' & Heq & _).
      apply Hkeep. split.
      * rewrite Heq. simpl. unfold groupContract.
        assert (mg_CoreProvider mg' = mg_CoreProvider mg) as ->
          by (by injection Heq).
        assert (contract' = contract) as -> by (by injection Heq).
        exact Hne.
      * exact Hex.
    + intros Heq. apply list_elem_of_bind. exists mg. split; [ | done].
      apply list_elem_of_filter. split.
      * intros [Hne _]. by apply Hne.
      * apply list_elem_of_fmap. by exists contract.
Qed.

(** The first element of a list with a decidable property. *)
Lemma Exists_first {A} (P : A -> Prop) `{!∀ x, Decision (P x)} (l : list A) :
  Exists P l ->
  ∃ pre x post, l = pre ++ x :: post /\ Forall (λ y, ¬ P y) pre /\ P x.
Proof.
  induction 1 as [x l Hx | x l _ IH].
  - exists [], x, l. by repeat split.
  - destruct (decide (P x)) as [Hx | Hx].
    + exists [], x, l. by repeat split.
    + destruct IH as (pre & y & post & -> & Hpre & Hy).
      exists (x :: pre), y, post. repeat split; [by constructor | done].
Qed.

(** A wrapped nil error: what [Plan] returns for a management group whose
    core provider yields no contract at all. *)
Lemma Plan_no_contract managementGroup managementGroups info :
  GetManagementGroups = (managementGroup :: managementGroups, None) ->
  getUpgradeInfo (mg_CoreProvider managementGroup) = (info, None) ->
  getContractsForUpgrade info = [] ->
  Plan = ([], None).
Proof.
  intros Hgroups Hinfo Hcontracts. unfold Plan. rewrite Hgroups. simpl.
  by rewrite Hinfo, Hcontracts.
Qed.

Lemma targetCoreProviderVersion_loop_find managementGroup upgradeItems default :
  targetCoreProviderVersion_loop (mg_CoreProvider managementGroup) upgradeItems
    default
  = match list_find (isCoreItem managementGroup) upgradeItems with
    | Some (_, item) => NextVersion item
    | None => default
    end.
Proof.
  induction upgradeItems as [|item items IH]; simpl; [done | ].
  unfold isCoreItem at 1. case_bool_decide; case_decide; try done.
  rewrite IH. by destruct (list_find _ items) as [[? ?]|].
Qed.

Lemma itemContract_Some managementGroup item contract :
  itemContract managementGroup item = Some contract ->
  ∃ provider,
    GetProviderByInstanceName managementGroup (InstanceName (Provider item))
    = Some provider
    /\ getProviderContractByVersion provider (NextVersion item) = Ok contract.
Proof.
  unfold itemContract. intros H.
  destruct (GetProviderByInstanceName _ _) as [provider|]; [ | done].
  exists provider. split; [done | ].
  destruct (getProviderContractByVersion _ _); congruence.
Qed.

Lemma createCustomPlan_items_pass coreProvider managementGroup targetContract
    upgradeItems planProviders upgradeInstanceNames :
  Forall (λ item, itemContract managementGroup item = Some targetContract)
    upgradeItems ->
  createCustomPlan_items coreProvider managementGroup targetContract
    upgradeItems planProviders upgradeInstanceNames
  = Ok (planProviders ++ (carryOver managementGroup <$> upgradeItems),
        list_to_set ((InstanceName ∘ Provider) <$> upgradeItems)
          ∪ upgradeInstanceNames).
Proof.
  intros Hall. revert planProviders upgradeInstanceNames.
  induction Hall as [|item items Hitem _ IH]; intros acc names.
  - simpl. rewrite app_nil_r. f_equal. f_equal. set_solver.
  - apply itemContract_Some in Hitem as (provider & Hprovider & Hcontract).
    cbn [createCustomPlan_items]. rewrite Hprovider, Hcontract.
    rewrite bool_decide_false by (intros H; by apply H).
    rewrite IH, !fmap_cons, <- app_assoc, list_to_set_cons.
    assert (carryOver managementGroup item
            = setWatchedNamespace item (WatchedNamespace provider)) as ->
      by (unfold carryOver; by rewrite Hprovider).
    change (InstanceName (Provider (setWatchedNamespace item (WatchedNamespace provider))))
      with ((InstanceName ∘ Provider) item).
    generalize (list_to_set (C:=gset string) ((InstanceName ∘ Provider) <$> items)).
    intros X. simpl. f_equal. f_equal. set_solver.
Qed.

Lemma createCustomPlan_items_mismatch coreProvider managementGroup targetContract
    pre item post contract planProviders upgradeInstanceNames :
  Forall (λ item, itemContract managementGroup item = Some targetContract) pre ->
  itemContract managementGroup item = Some contract ->
  contract ≠ targetContract ->
  createCustomPlan_items coreProvider managementGroup targetContract
    (pre ++ item :: post) planProviders upgradeInstanceNames
  = Err (ContractMismatch (InstanceName (Provider item)) contract targetContract).
Proof.
  intros Hpre Hitem Hne. revert planProviders upgradeInstanceNames.
  induction Hpre as [|x pre Hx _ IH]; intros acc names; simpl.
  - apply itemContract_Some in Hitem as (provider & -> & ->).
    by rewrite bool_decide_true.
  - apply itemContract_Some in Hx as (provider & -> & ->).
    rewrite bool_decide_false by (intros H; by apply H). apply IH.
Qed.

Lemma currentContractOf_Some provider contract :
  currentContractOf provider = Some contract ->
  getProviderContractByVersion provider (Version provider) = Ok contract.
Proof.
  unfold currentContractOf.
  destruct (getProviderContractByVersion _ _); congruence.
Qed.

Lemma createCustomPlan_lagging_step upgradeItems targetContract provider rest :
  upToDate upgradeItems targetContract provider ->
  createCustomPlan_lagging (provider :: rest)
    (list_to_set ((InstanceName ∘ Provider) <$> upgradeItems) ∪ ∅) targetContract
  = createCustomPlan_lagging rest
      (list_to_set ((InstanceName ∘ Provider) <$> upgradeItems) ∪ ∅) targetContract.
Proof.
  intros Hp. simpl. case_bool_decide as Hin; [done | ].
  destruct Hp as [Hp | Hp].
  - exfalso. apply Hin. unfold supplied in Hp. set_solver.
  - apply currentContractOf_Some in Hp as ->.
    by rewrite bool_decide_false by (intros H; by apply H).
Qed.

Lemma createCustomPlan_lagging_pass upgradeItems targetContract providers :
  Forall (upToDate upgradeItems targetContract) providers ->
  createCustomPlan_lagging providers
    (list_to_set ((InstanceName ∘ Provider) <$> upgradeItems) ∪ ∅) targetContract
  = Ok tt.
Proof.
  induction 1 as [|provider providers Hp _ IH]; [done | ].
  by rewrite createCustomPlan_lagging_step.
Qed.

Lemma createCustomPlan_lagging_fails upgradeItems targetContract
    pre provider post contract :
  Forall (upToDate upgradeItems targetContract) pre ->
  ¬ supplied upgradeItems provider ->
  currentContractOf provider = Some contract ->
  contract ≠ targetContract ->
  createCustomPlan_lagging (pre ++ provider :: post)
    (list_to_set ((InstanceName ∘ Provider) <$> upgradeItems) ∪ ∅) targetContract
  = Err (ContractLagging (InstanceName provider) contract targetContract).
Proof.
  intros Hpre Hnot Hcontract Hne.
  induction Hpre as [|x pre Hx _ IH].
  - simpl. rewrite bool_decide_false.
    + apply currentContractOf_Some in Hcontract as ->.
      by rewrite bool_decide_true.
    + intros Hin. apply Hnot. unfold supplied. set_solver.
  - change ((x :: pre) ++ provider :: post) with (x :: (pre ++ provider :: post)).
    by rewrite createCustomPlan_lagging_step.
Qed.

(** [createCustomPlan] up to its last check, once the management group, the
    target contract and the upgrade items are in order. *)
Lemma createCustomPlan_unfold coreProvider upgradeItems managementGroup
    targetContract :
  getManagementGroup coreProvider = Ok managementGroup ->
  getProviderContractByVersion (mg_CoreProvider managementGroup)
    (coreTargetVersion managementGroup upgradeItems) = Ok targetContract ->
  Forall (λ item, itemContract managementGroup item = Some targetContract)
    upgradeItems ->
  createCustomPlan coreProvider upgradeItems
  = (_ ← createCustomPlan_lagging (mg_Providers managementGroup)
           (list_to_set ((InstanceName ∘ Provider) <$> upgradeItems) ∪ ∅)
           targetContract;
     mret (customPlan managementGroup targetContract upgradeItems)).
Proof.
  intros Hmg Htarget Hitems. unfold createCustomPlan.
  rewrite Hmg. simpl.
  rewrite targetCoreProviderVersion_loop_find.
  fold (coreTargetVersion managementGroup upgradeItems).
  rewrite Htarget. simpl.
  by rewrite (createCustomPlan_items_pass _ _ _ _ [] ∅ Hitems).
Qed.

(** The items of [customPlan] carry the watched namespace of the inventory
    records. *)
Lemma carryOver_carriedOver managementGroup upgradeItems :
  Forall (λ item, is_Some (itemContract managementGroup item)) upgradeItems ->
  Forall2 (carriedOver managementGroup) upgradeItems
    (carryOver managementGroup <$> upgradeItems).
Proof.
  induction 1 as [|item items [contract Hitem] _ IH]; simpl; constructor;
    [ | done].
  apply itemContract_Some in Hitem as (provider & Hprovider & _).
  exists provider. unfold carryOver. rewrite Hprovider. simpl.
  by split_and!.
Qed.

(** C6: the target contract is the contract of [coreTargetVersion]: the
    target version of the core provider when it is among the upgrade items,
    its current version otherwise.  With the management group and the
    target contract resolved, and every upgrade item matched with a member
    of the group whose target version supports some contract:
    [createCustomPlan] fails with [ContractMismatch] as soon as the contract
    of one item differs from the target contract (the error names the first
    such item); otherwise the plan it builds, once the remaining members
    pass their own check, is for the target contract and holds, for every
    upgrade item and in the same order, an item whose watched namespace is
    the one of the inventory record with that instance name (whatever the
    upgrade item itself carried) and whose other fields and next version
    are those of the upgrade item. *)
Theorem createCustomPlan_contract_mismatch
    (coreProvider : clusterctlv1.Provider) (upgradeItems : list UpgradeItem)
    (managementGroup : ManagementGroup) (targetContract : string) :
  getManagementGroup coreProvider = Ok managementGroup ->
  getProviderContractByVersion (mg_CoreProvider managementGroup)
    (coreTargetVersion managementGroup upgradeItems) = Ok targetContract ->
  Forall (λ item, is_Some (itemContract managementGroup item)) upgradeItems ->
  (Exists (λ item, itemContract managementGroup item ≠ Some targetContract)
     upgradeItems ->
   ∃ pre item post contract,
     upgradeItems = pre ++ item :: post
     /\ Forall (λ item, itemContract managementGroup item = Some targetContract)
          pre
     /\ itemContract managementGroup item = Some contract
     /\ contract ≠ targetContract
     /\ createCustomPlan coreProvider upgradeItems
        = Err (ContractMismatch (InstanceName (Provider item)) contract
                 targetContract))
  /\ (Forall (λ item, itemContract managementGroup item = Some targetContract)
        upgradeItems ->
      (∀ plan,
         createCustomPlan coreProvider upgradeItems = Ok plan ->
         plan = customPlan managementGroup targetContract upgradeItems)
      /\ (Forall (upToDate upgradeItems targetContract)
            (mg_Providers managementGroup) ->
          createCustomPlan coreProvider upgradeItems
          = Ok (customPlan managementGroup targetContract upgradeItems))
      /\ (∀ plan,
            createCustomPlan coreProvider upgradeItems = Ok plan ->
            Contract plan = targetContract
            /\ CoreProvider plan = mg_CoreProvider managementGroup
            /\ Forall2 (carriedOver managementGroup) upgradeItems
                 (Providers plan))).
Proof.
  intros Hmg Htarget Hsome. split.
  - intros Hex.
    apply (Exists_first _) in Hex as (pre & item & post & -> & Hpre & Hitem).
    apply Forall_app in Hsome as [_ Hsome].
    apply Forall_cons in Hsome as [[contract Hcontract] _].
    assert (Forall (λ item, itemContract managementGroup item = Some targetContract)
              pre) as Hpass.
    { eapply Forall_impl; [exact Hpre | ]. simpl. intros x Hx.
      by destruct (decide (itemContract managementGroup x = Some targetContract)). }
    exists pre, item, post, contract. repeat split; try done.
    + intros ->. by apply Hitem.
    + unfold createCustomPlan. rewrite Hmg. simpl.
      rewrite targetCoreProviderVersion_loop_find.
      fold (coreTargetVersion managementGroup (pre ++ item :: post)).
      rewrite Htarget. simpl.
      rewrite (createCustomPlan_items_mismatch _ _ _ pre item post contract);
        try done.
      intros ->. by apply Hitem.
  - intros Hpass.
    rewrite (createCustomPlan_unfold _ _ _ _ Hmg Htarget Hpass).
    assert (∀ plan,
              (_ ← createCustomPlan_lagging (mg_Providers managementGroup)
                     (list_to_set ((InstanceName ∘ Provider) <$> upgradeItems)
                        ∪ ∅) targetContract;
               mret (customPlan managementGroup targetContract upgradeItems))
              = Ok plan ->
              plan = customPlan managementGroup targetContract upgradeItems)
      as Hplan.
    { intros plan.
      destruct (createCustomPlan_lagging _ _ _);
        unfold mbind, result_bind, mret, result_ret; simpl; congruence. }
    split_and!.
    + exact Hplan.
    + intros Hmembers. by rewrite createCustomPlan_lagging_pass.
    + intros plan Hok. rewrite (Hplan plan Hok). simpl.
      split_and!; [done .. | by apply carryOver_carriedOver].
Qed.

End PlannerProperties.

(** ** Applying an upgrade plan *)

Section UpgradeProperties.

Import clusterctlv1 cluster.
Context `{Q : UpgraderQueries} `{E : UpgradeEnv}.

(** C7: with the management group and the target contract resolved and
    every upgrade item passing its check, and with a contract known for the
    current version of every member of the group which is not among the
    upgrade items: if the current version of one such member supports
    another contract than the target one, [createCustomPlan] fails with
    [ContractLagging] (the error names the first such member and the contract
    it supports) and [ApplyCustomPlan] returns this error without upgrading
    anything; if every such member supports the target contract, the custom
    plan is built and [ApplyCustomPlan] goes on to carry it out. *)
Theorem ApplyCustomPlan_contract_lagging
    (coreProvider : clusterctlv1.Provider) (upgradeItems : list UpgradeItem)
    (managementGroup : ManagementGroup) (targetContract : string) :
  getManagementGroup coreProvider = Ok managementGroup ->
  getProviderContractByVersion (mg_CoreProvider managementGroup)
    (coreTargetVersion managementGroup upgradeItems) = Ok targetContract ->
  Forall (λ item, itemContract managementGroup item = Some targetContract)
    upgradeItems ->
  Forall (λ provider,
            supplied upgradeItems provider
            \/ is_Some (currentContractOf provider))
    (mg_Providers managementGroup) ->
  (Exists (λ provider, ¬ upToDate upgradeItems targetContract provider)
     (mg_Providers managementGroup) ->
   ∃ pre provider post contract,
     mg_Providers managementGroup = pre ++ provider :: post
     /\ Forall (upToDate upgradeItems targetContract) pre
     /\ ¬ supplied upgradeItems provider
     /\ currentContractOf provider = Some contract
     /\ contract ≠ targetContract
     /\ createCustomPlan coreProvider upgradeItems
        = Err (ContractLagging (InstanceName provider) contract targetContract)
     /\ ∀ st,
         ApplyCustomPlan coreProvider upgradeItems st
         = (Some (ContractLagging (InstanceName provider) contract
                    targetContract), st))
  /\ (Forall (upToDate upgradeItems targetContract)
        (mg_Providers managementGroup) ->
      createCustomPlan coreProvider upgradeItems
      = Ok (customPlan managementGroup targetContract upgradeItems)
      /\ ∀ st,
          ApplyCustomPlan coreProvider upgradeItems st
          = doUpgrade (customPlan managementGroup targetContract upgradeItems) st).
Proof.
  intros Hmg Htarget Hitems Hknown.
  pose proof (createCustomPlan_unfold _ _ _ _ Hmg Htarget Hitems) as Hplan.
  split.
  - intros Hex.
    apply (Exists_first _) in Hex as (pre & provider & post & Hsplit & Hpre & Hp).
    rewrite Hsplit in Hknown.
    apply Forall_app in Hknown as [_ Hknown].
    apply Forall_cons in Hknown as [Hprovider _].
    assert (Forall (upToDate upgradeItems targetContract) pre) as Hpass.
    { eapply Forall_impl; [exact Hpre | ]. simpl. intros x Hx.
      by destruct (decide (upToDate upgradeItems targetContract x)). }
    assert (¬ supplied upgradeItems provider) as Hnot
      by (intros Hs; apply Hp; by left).
    destruct Hprovider as [Hs | [contract Hcontract]]; [done | ].
    assert (contract ≠ targetContract) as Hne
      by (intros ->; apply Hp; by right).
    assert (createCustomPlan coreProvider upgradeItems
            = Err (ContractLagging (InstanceName provider) contract
                     targetContract)) as Herr.
    { rewrite Hplan, Hsplit.
      by rewrite (createCustomPlan_lagging_fails _ _ pre provider post contract). }
    exists pre, provider, post, contract. repeat split; try done.
    intros st. unfold ApplyCustomPlan. by rewrite Herr.
  - intros Hall.
    assert (createCustomPlan coreProvider upgradeItems
            = Ok (customPlan managementGroup targetContract upgradeItems)) as Hok
      by (by rewrite Hplan, createCustomPlan_lagging_pass).
    split; [done | ]. intros st. unfold ApplyCustomPlan. by rewrite Hok.
Qed.




End UpgradeProperties.

(** ** The object graph *)

Section DiscoveryProperties.

Import objectgraph.




End DiscoveryProperties.

Section AddObjectProperties.

Import objectgraph.
Context `{T : TypeTable}.

(** In a graph whose nodes are stored under their own UID, a UID names one
    node when it is a key of the graph and none otherwise. *)
Lemma nodesWithUID_keyed (g : gmap string node) (uid : string) :
  keyed g ->
  length (nodesWithUID g uid) = match g !! uid with Some _ => 1 | None => 0 end.
Proof.
  unfold nodesWithUID, keyed.
  induction g as [|k n g Hk Hfirst IH] using map_first_key_ind; intros Hkeyed.
  - by rewrite map_to_list_empty, lookup_empty.
  - rewrite map_to_list_insert_first_key by done.
    apply map_Forall_insert in Hkeyed as [Hn Hkeyed]; [ | done].
    specialize (IH Hkeyed). rewrite fmap_cons. simpl in Hn |- *.
    destruct (decide (k = uid)) as [-> | Hne].
    + rewrite lookup_insert_eq, filter_cons_True by done.
      rewrite length_cons, IH, Hk. done.
    + rewrite lookup_insert_ne, filter_cons_False by congruence. exact IH.
Qed.

Lemma addOwner_lookup_self ns uid (g : gmap string node) r n :
  g !! uid = Some n ->
  addOwner ns uid g r !! uid = Some (withOwner (or_UID r) n).
Proof.
  intros Hn. unfold addOwner. rewrite lookup_alter_eq.
  destruct (g !! or_UID r) eqn:Hr.
  - by rewrite Hn.
  - rewrite lookup_insert_ne by congruence. by rewrite Hn.
Qed.

Lemma addOwner_lookup_other ns uid (g : gmap string node) r k :
  k ≠ uid -> is_Some (g !! k) ->
  addOwner ns uid g r !! k = g !! k.
Proof.
  intros Hne [n Hn]. unfold addOwner. rewrite lookup_alter_ne by done.
  destruct (g !! or_UID r) eqn:Hr; [done | ].
  rewrite lookup_insert_ne; [done | congruence].
Qed.

Lemma addOwner_lookup_new ns uid (g : gmap string node) r k :
  k ≠ uid -> g !! k = None ->
  addOwner ns uid g r !! k
  = if decide (or_UID r = k) then Some (mkNode (identityOfOwner ns r) true)
    else None.
Proof.
  intros Hne Hk. unfold addOwner. rewrite lookup_alter_ne by done.
  case_decide as Hr.
  - subst k. rewrite Hk. by rewrite lookup_insert_eq.
  - destruct (g !! or_UID r); [done | ]. by rewrite lookup_insert_ne.
Qed.

Lemma foldl_addOwner_lookup_self ns uid refs (g : gmap string node) n :
  g !! uid = Some n ->
  ∃ n', foldl (addOwner ns uid) g refs !! uid = Some n'
        /\ identity n' = identity n /\ virtual n' = virtual n
        /\ owners n ⊆ owners n'
        /\ ∀ r, r ∈ refs -> or_UID r ∈ owners n'.
Proof.
  revert g n. induction refs as [|r refs IH]; intros g n Hn; simpl.
  - exists n. split_and!; [done .. | set_solver].
  - destruct (IH _ _ (addOwner_lookup_self ns uid g r n Hn))
      as (n' & Hn' & Hid & Hvirtual & Howners & Hrefs).
    exists n'. simpl in *. split_and!; [done .. | set_solver | ].
    intros r' Hr'. apply elem_of_cons in Hr' as [-> | Hr']; [set_solver | auto].
Qed.

Lemma foldl_addOwner_lookup_other ns uid refs (g : gmap string node) k :
  k ≠ uid -> is_Some (g !! k) ->
  foldl (addOwner ns uid) g refs !! k = g !! k.
Proof.
  intros Hne. revert g. induction refs as [|r refs IH]; intros g Hk; simpl.
  - done.
  - rewrite IH; [by apply addOwner_lookup_other | ].
    by rewrite addOwner_lookup_other.
Qed.

Lemma foldl_addOwner_lookup_new ns uid refs (g : gmap string node) r :
  r ∈ refs -> or_UID r ≠ uid -> g !! or_UID r = None ->
  ∃ n, foldl (addOwner ns uid) g refs !! or_UID r = Some n
       /\ virtual n = true.
Proof.
  intros Hr Hne. revert g.
  induction refs as [|r' refs IH]; intros g Hk; simpl.
  - by apply elem_of_nil in Hr.
  - pose proof (addOwner_lookup_new ns uid g r' (or_UID r) Hne Hk) as Hstep.
    case_decide as Heq.
    + rewrite foldl_addOwner_lookup_other by (by rewrite ?Hstep).
      rewrite Hstep. by eexists.
    + apply elem_of_cons in Hr as [-> | Hr]; [done | ].
      by apply IH.
Qed.

Lemma observe_lookup_self (g : gmap string node) o :
  ∃ n, observe g o !! obj_UID o = Some n
       /\ virtual n = false /\ identity n = identityOf o.
Proof.
  unfold observe. destruct (g !! obj_UID o) as [n|] eqn:Hn.
  - destruct (virtual n); rewrite lookup_insert_eq; by eexists.
  - rewrite lookup_insert_eq. by eexists.
Qed.

Lemma observe_lookup_other (g : gmap string node) o k :
  k ≠ obj_UID o -> observe g o !! k = g !! k.
Proof.
  intros Hne. unfold observe.
  destruct (g !! obj_UID o) as [n|]; [destruct (virtual n) | ];
    by rewrite lookup_insert_ne.
Qed.

Lemma observe_keyed (g : gmap string node) o : keyed g -> keyed (observe g o).
Proof.
  intros Hkeyed. unfold observe.
  destruct (g !! obj_UID o) as [n|]; [destruct (virtual n) | ];
    by apply map_Forall_insert_2.
Qed.

Lemma addOwner_keyed ns uid (g : gmap string node) r :
  keyed g -> keyed (addOwner ns uid g r).
Proof.
  intros Hkeyed. unfold addOwner.
  assert (keyed (match g !! or_UID r with
                 | Some _ => g
                 | None => <[or_UID r:=mkNode (identityOfOwner ns r) true]> g
                 end)) as Hkeyed'.
  { destruct (g !! or_UID r); [done | ]. by apply map_Forall_insert_2. }
  intros k n Hn. apply lookup_alter_Some in Hn as [(-> & n' & Hn' & ->) | [_ Hn]].
  - simpl. by apply Hkeyed' in Hn'.
  - by apply Hkeyed' in Hn.
Qed.

Lemma addObject_Ok (g g' : gmap string node) o :
  addObject g o = Ok g' ->
  g' = foldl (addOwner (obj_Namespace o) (obj_UID o)) (observe g o)
         (obj_OwnerReferences o).
Proof. unfold addObject. case_decide; congruence. Qed.

(** [addObject] keeps every node under its own UID. *)
Lemma addObject_keyed (g g' : gmap string node) o :
  keyed g -> addObject g o = Ok g' -> keyed g'.
Proof.
  intros Hkeyed ->%addObject_Ok.
  generalize (observe_keyed g o Hkeyed). generalize (observe g o).
  induction (obj_OwnerReferences o) as [|r refs IH]; intros g0 Hg0; simpl.
  - done.
  - by apply IH, addOwner_keyed.
Qed.

(** An object with an owner reference to a UID the graph does not hold
    yet: the owner gets a virtual node, listed among the owners of the
    object. *)
Lemma addObject_virtual_owner (g g' : gmap string node) o r :
  r ∈ obj_OwnerReferences o ->
  or_UID r ≠ obj_UID o ->
  g !! or_UID r = None ->
  addObject g o = Ok g' ->
  (∃ n, g' !! or_UID r = Some n /\ virtual n = true)
  /\ (∃ n, g' !! obj_UID o = Some n /\ virtual n = false
           /\ or_UID r ∈ owners n).
Proof.
  intros Hr Hne Hnew ->%addObject_Ok. split.
  - apply foldl_addOwner_lookup_new; [done .. | ].
    by rewrite observe_lookup_other.
  - destruct (observe_lookup_self g o) as (n & Hn & Hvirtual & _).
    destruct (foldl_addOwner_lookup_self (obj_Namespace o) (obj_UID o)
                (obj_OwnerReferences o) _ _ Hn)
      as (n' & Hn' & _ & Hvirtual' & _ & Hrefs).
    exists n'. repeat split; [done | congruence | auto].
Qed.

(** An object the graph holds a node for: the node becomes, or stays,
    non-virtual, and the nodes of other UIDs are left as they are. *)
Lemma addObject_observed (g g' : gmap string node) o :
  addObject g o = Ok g' ->
  (∃ n, g' !! obj_UID o = Some n /\ virtual n = false)
  /\ ∀ k, k ≠ obj_UID o -> is_Some (g !! k) -> g' !! k = g !! k.
Proof.
  intros ->%addObject_Ok. split.
  - destruct (observe_lookup_self g o) as (n & Hn & Hvirtual & _).
    destruct (foldl_addOwner_lookup_self (obj_Namespace o) (obj_UID o)
                (obj_OwnerReferences o) _ _ Hn)
      as (n' & Hn' & _ & Hvirtual' & _).
    exists n'. split; [done | congruence].
  - intros k Hne Hk.
    rewrite foldl_addOwner_lookup_other; rewrite ?observe_lookup_other; done.
Qed.

Lemma addObject_owner_listed (g g' : gmap string node) o r :
  r ∈ obj_OwnerReferences o ->
  addObject g o = Ok g' ->
  ∃ n, g' !! obj_UID o = Some n /\ or_UID r ∈ owners n.
Proof.
  intros Hr ->%addObject_Ok.
  destruct (observe_lookup_self g o) as (n & Hn & _).
  destruct (foldl_addOwner_lookup_self (obj_Namespace o) (obj_UID o)
              (obj_OwnerReferences o) _ _ Hn) as (n' & Hn' & _ & _ & _ & Hrefs).
  exists n'. auto.
Qed.

Lemma nodesWithUID_at_most_one (g : gmap string node) uid :
  keyed g -> length (nodesWithUID g uid) ≤ 1.
Proof.
  intros Hkeyed. rewrite nodesWithUID_keyed by done.
  destruct (g !! uid); lia.
Qed.

(** C4: let the object [a] carry an owner reference to the UID of the object
    [b], a UID the graph has no node for.  Adding [a] leaves exactly one
    node for that UID, virtual and listed among the owners of [a]; adding
    [b] afterwards makes the node under that UID non-virtual, [a] still
    lists it among its owners and no UID has more than one node.  Adding
    [b] first and [a] afterwards ends the same way: one node for the UID,
    non-virtual and listed among the owners of [a]. *)
Theorem addObject_owner_virtual_until_observed
    (g : gmap string node) (a b : object) (r : OwnerReference) :
  keyed g ->
  r ∈ obj_OwnerReferences a ->
  or_UID r = obj_UID b ->
  obj_UID a ≠ obj_UID b ->
  g !! obj_UID b = None ->
  (∀ g1 g2,
     addObject g a = Ok g1 -> addObject g1 b = Ok g2 ->
     (∃ n, g1 !! obj_UID b = Some n /\ virtual n = true)
     /\ length (nodesWithUID g1 (obj_UID b)) = 1
     /\ (∃ n, g1 !! obj_UID a = Some n /\ obj_UID b ∈ owners n)
     /\ (∃ n, g2 !! obj_UID b = Some n /\ virtual n = false)
     /\ length (nodesWithUID g2 (obj_UID b)) = 1
     /\ (∃ n, g2 !! obj_UID a = Some n /\ obj_UID b ∈ owners n)
     /\ ∀ uid, length (nodesWithUID g2 uid) ≤ 1)
  /\ (∀ g1 g2,
        addObject g b = Ok g1 -> addObject g1 a = Ok g2 ->
        (∃ n, g2 !! obj_UID b = Some n /\ virtual n = false)
        /\ length (nodesWithUID g2 (obj_UID b)) = 1
        /\ (∃ n, g2 !! obj_UID a = Some n /\ obj_UID b ∈ owners n)
        /\ ∀ uid, length (nodesWithUID g2 uid) ≤ 1).
Proof.
  intros Hkeyed Hr Hu Hne Hnew. split.
  - intros g1 g2 Ha Hb.
    pose proof (addObject_keyed _ _ _ Hkeyed Ha) as Hkeyed1.
    pose proof (addObject_keyed _ _ _ Hkeyed1 Hb) as Hkeyed2.
    destruct (addObject_virtual_owner g g1 a r) as [(n & Hn & Hvirtual) Hlisted];
      [done | congruence | by rewrite Hu | done | ].
    rewrite Hu in Hn, Hlisted.
    destruct Hlisted as (na & Hna & _ & Howner).
    destruct (addObject_observed _ _ _ Hb) as [(n' & Hn' & Hvirtual') Hothers].
    split_and!.
    + by exists n.
    + by rewrite nodesWithUID_keyed, Hn.
    + by exists na.
    + by exists n'.
    + by rewrite nodesWithUID_keyed, Hn'.
    + exists na. split; [ | done]. rewrite Hothers; [done .. | by rewrite Hna].
    + intros uid. by apply nodesWithUID_at_most_one.
  - intros g1 g2 Hb Ha.
    pose proof (addObject_keyed _ _ _ Hkeyed Hb) as Hkeyed1.
    pose proof (addObject_keyed _ _ _ Hkeyed1 Ha) as Hkeyed2.
    destruct (addObject_observed _ _ _ Hb) as [(n & Hn & Hvirtual) _].
    destruct (addObject_observed _ _ _ Ha) as [_ Hothers].
    assert (g2 !! obj_UID b = Some n) as Hn2
      by (rewrite Hothers; [done | congruence | by rewrite Hn]).
    destruct (addObject_owner_listed _ _ _ _ Hr Ha) as (na & Hna & Howner).
    rewrite Hu in Howner.
    split_and!.
    + by exists n.
    + by rewrite nodesWithUID_keyed, Hn2.
    + by exists na.
    + intros uid. by apply nodesWithUID_at_most_one.
Qed.

End AddObjectProperties.

Section SoftOwnershipProperties.

Import objectgraph.

Lemma longestName_bounds (cands : gmap string node) :
  (∀ k c, cands !! k = Some c ->
          String.length (Name (identity c)) ≤ longestName cands)
  /\ (∀ bound,
        (∀ k c, cands !! k = Some c ->
                String.length (Name (identity c)) ≤ bound) ->
        longestName cands ≤ bound).
Proof.
  unfold longestName.
  apply (map_fold_weak_ind
           (λ r (m : gmap string node),
              (∀ k c, m !! k = Some c -> String.length (Name (identity c)) ≤ r)
              /\ (∀ bound,
                    (∀ k c, m !! k = Some c ->
                            String.length (Name (identity c)) ≤ bound) ->
                    r ≤ bound))).
  - split; [intros k c Hk; by rewrite lookup_empty in Hk | intros; lia].
  - intros i x m r Hi [Hupper Hleast]. split.
    + intros k c Hk. apply lookup_insert_Some in Hk as [[<- <-] | [_ Hk]].
      * lia.
      * specialize (Hupper _ _ Hk). lia.
    + intros bound Hbound.
      assert (r ≤ bound).
      { apply Hleast. intros k c Hk. apply (Hbound k).
        rewrite lookup_insert_ne; [done | congruence]. }
      specialize (Hbound i x (lookup_insert_eq _ _ _)). lia.
Qed.

Lemma elem_of_softOwnersFor suffixes (g : gmap string node) secret uc :
  uc ∈ softOwnersFor suffixes g secret <-> longestCandidate suffixes g secret uc.
Proof.
  unfold softOwnersFor, longestCandidate, candidates.
  destruct (longestName_bounds
              (filter (λ kn, candidate suffixes secret kn.2) g))
    as [Hupper Hleast].
  rewrite elem_of_dom. split.
  - intros [c Hc].
    apply map_lookup_filter_Some in Hc as [Hc Hlen]. simpl in Hlen.
    pose proof Hc as Hcand.
    apply map_lookup_filter_Some in Hcand as [Hg Hcand]. simpl in Hcand.
    exists c. split_and!; [done .. | ].
    intros k c' Hk Hc'. rewrite Hlen. apply (Hupper k).
    by apply map_lookup_filter_Some.
  - intros (c & Hg & Hcand & Hlongest).
    assert (filter (λ kn, candidate suffixes secret kn.2) g !! uc = Some c)
      as Hc by (by apply map_lookup_filter_Some).
    exists c. apply map_lookup_filter_Some. split; [done | ]. simpl.
    apply Nat.le_antisymm; [by apply (Hupper uc) | ].
    apply Hleast. intros k c' Hk.
    apply map_lookup_filter_Some in Hk as [Hk Hc']. by apply (Hlongest k).
Qed.

(** C3: after [setSoftOwnership], the soft owners of a secret are those it
    had together with the longest candidates: the cluster nodes of the
    secret's namespace after which the secret is named
    (["<clusterName>-<suffix>"], the suffix being a configured one), none of
    the candidates having a longer name.  A secret no cluster matches gains
    no soft owner.  In scenario S5 with a cluster [foo] beside [foo-bar] and
    the initial suffixes, [foo-bar-ca] is soft-owned by [foo-bar] alone, and
    [foo-bar-kubeconfig], which has its owner reference, has no soft owner. *)
Theorem setSoftOwnership_longest_match
    (suffixes : list string) (g : gmap string node) (us : string)
    (secret : node) :
  g !! us = Some secret ->
  isSecret secret = true ->
  (∃ secret',
     setSoftOwnership suffixes g !! us = Some secret'
     /\ (∀ uc, uc ∈ softOwners secret' <->
               uc ∈ softOwners secret
               \/ longestCandidate suffixes g secret uc)
     /\ ((∀ k c, g !! k = Some c -> ¬ candidate suffixes secret c) ->
         softOwners secret' = softOwners secret))
  /\ (softOwners <$> setSoftOwnership defaultSuffixes scenario.dashedGraph
                      !! "Secret, ns1/foo-bar-ca"
      = Some {[ "Cluster, ns1/foo-bar" ]}
      /\ softOwners <$> setSoftOwnership defaultSuffixes scenario.dashedGraph
                         !! "Secret, ns1/foo-bar-kubeconfig"
         = Some ∅
      /\ owners <$> setSoftOwnership defaultSuffixes scenario.dashedGraph
                     !! "Secret, ns1/foo-bar-kubeconfig"
         = Some {[ "Cluster, ns1/foo-bar" ]}).
Proof.
  intros Hsecret Hflag. split.
  - exists (withSoftOwners (softOwnersFor suffixes g secret) secret).
    split_and!.
    + unfold setSoftOwnership. by rewrite lookup_fmap, Hsecret; simpl; rewrite Hflag.
    + intros uc. simpl. rewrite elem_of_union, elem_of_softOwnersFor. tauto.
    + intros Hnone. simpl.
      assert (softOwnersFor suffixes g secret = ∅) as ->; [ | set_solver].
      apply elem_of_equiv_empty_L. intros uc Hin.
      apply elem_of_softOwnersFor in Hin as (c & Hc & Hcand & _).
      by apply (Hnone uc c).
  - by_evaluation.
Qed.

End SoftOwnershipProperties.

Section TenantProperties.

Import objectgraph.

Variable g : gmap string node.

#[local] Abbreviation childOf := (objectgraph.childOf g).

Lemma elem_of_children (S : gset string) (y : string) :
  y ∈ children g S <-> ∃ x, x ∈ S /\ childOf x y.
Proof.
  unfold children, childOf, parentOf. rewrite elem_of_dom. split.
  - intros [n Hn]. apply map_lookup_filter_Some in Hn as [Hn Hmeet].
    simpl in Hmeet. apply set_choose_L in Hmeet as [x Hx].
    exists x. split; [set_solver | ]. exists n. split; [done | set_solver].
  - intros (x & Hx & n & Hn & Hparent).
    exists n. apply map_lookup_filter_Some. split; [done | ]. simpl.
    set_solver.
Qed.

Lemma children_subseteq_dom (S : gset string) : children g S ⊆ dom g.
Proof. unfold children. apply dom_filter_subseteq. Qed.

(** The traversal reaches exactly the descendants, as long as the fuel is
    more than the nodes left to visit. *)
Lemma bfs_reaches (c : string) (fuel : nat) (frontier visited : gset string) :
  c ∈ visited ->
  frontier ⊆ visited ->
  visited ⊆ dom g ->
  (∀ x, x ∈ visited -> rtc childOf c x) ->
  (∀ x y, x ∈ visited -> x ∉ frontier -> childOf x y -> y ∈ visited) ->
  size (dom g) < size visited + fuel ->
  ∀ x, x ∈ bfs g fuel frontier visited <-> rtc childOf c x.
Proof.
  revert frontier visited.
  induction fuel as [|fuel IH];
    intros frontier visited Hc Hfrontier Hdom Hsound Hclosed Hfuel.
  - apply subseteq_size in Hdom. lia.
  - simpl. case_decide as Hnext.
    + intros x. split; [by apply Hsound | ].
      revert x. apply rtc_ind_r; [done | ].
      intros y z _ Hstep IHreach.
      destruct (decide (y ∈ frontier)) as [Hy | Hy].
      * assert (z ∈ children g frontier) as Hz
          by (apply elem_of_children; by exists y).
        set_solver.
      * by apply (Hclosed y).
    + apply IH.
      * set_solver.
      * set_solver.
      * pose proof (children_subseteq_dom frontier). set_solver.
      * intros x Hx. apply elem_of_union in Hx as [Hx | Hx]; [by apply Hsound | ].
        apply elem_of_difference in Hx as [Hx _].
        apply elem_of_children in Hx as (p & Hp & Hstep).
        apply rtc_r with p; [ | done]. apply Hsound. set_solver.
      * intros x y Hx Hnot Hstep.
        assert (x ∈ visited) as Hx' by set_solver.
        destruct (decide (x ∈ frontier)) as [Hin | Hout].
        -- assert (y ∈ children g frontier) as Hy
             by (apply elem_of_children; by exists x).
           destruct (decide (y ∈ visited)); set_solver.
        -- apply elem_of_union. left. by apply (Hclosed x).
      * rewrite size_union by set_solver.
        assert (size (children g frontier ∖ visited) ≠ 0)
          by (by apply size_non_empty_iff; intros ?%leibniz_equiv).
        lia.
Qed.

Lemma elem_of_descendants (c x : string) :
  is_Some (g !! c) ->
  x ∈ descendants g c <-> rtc childOf c x.
Proof.
  intros Hc. unfold descendants. apply bfs_reaches.
  - set_solver.
  - done.
  - apply elem_of_dom in Hc. set_solver.
  - intros y ->%elem_of_singleton. done.
  - intros y z Hy Hnot. set_solver.
  - rewrite size_singleton, size_dom. lia.
Qed.

Lemma rtc_childOf_parentOf (x y : string) :
  rtc childOf x y <-> rtc (parentOf g) y x.
Proof.
  split.
  - induction 1 as [|x y z Hstep _ IH]; [done | ].
    by apply rtc_r with y.
  - induction 1 as [|y x' z Hstep _ IH]; [done | ].
    by apply rtc_r with x'.
Qed.

Lemma elem_of_getClusters (c : string) :
  c ∈ getClusters g <-> ∃ n, g !! c = Some n /\ isCluster n = true.
Proof.
  unfold getClusters. rewrite elem_of_elements, elem_of_dom. split.
  - intros [n Hn]. apply map_lookup_filter_Some in Hn as [Hn Hflag]. by exists n.
  - intros (n & Hn & Hflag). exists n. by apply map_lookup_filter_Some.
Qed.

Lemma lookup_setClusterTenant c (S : gset string) (m : gmap string node) k :
  setClusterTenant c S m !! k
  = (λ n, if decide (k ∈ S) then withTenant c n else n) <$> m !! k.
Proof.
  unfold setClusterTenant. rewrite map_lookup_imap. by destruct (m !! k).
Qed.

Lemma setClusterTenants_fold (cs : list string) (k : string) :
  match g !! k with
  | None =>
      foldr (λ c acc, setClusterTenant c (descendants g c) acc) g cs !! k = None
  | Some n =>
      ∃ n',
        foldr (λ c acc, setClusterTenant c (descendants g c) acc) g cs !! k
        = Some n'
        /\ sameButTenants n n'
        /\ ∀ c, c ∈ tenantClusters n' <->
                c ∈ tenantClusters n \/ (c ∈ cs /\ k ∈ descendants g c)
  end.
Proof.
  destruct (g !! k) as [n|] eqn:Hn.
  - induction cs as [|c cs IH]; cbn [foldr].
    + exists n. split_and!; [done | by repeat split | ].
      intros c. split; [by left | ]. intros [? | [?%elem_of_nil _]]; done.
    + destruct IH as (n' & Hn' & Hsame & Htenants).
      rewrite lookup_setClusterTenant, Hn'. simpl.
      case_decide as Hin.
      * exists (withTenant c n'). split_and!; [done | exact Hsame | ].
        intros c'. simpl. rewrite elem_of_union, elem_of_singleton, Htenants.
        rewrite elem_of_cons. split.
        -- intros [-> | [? | [? ?]]]; auto.
        -- intros [? | [[-> | ?] ?]]; auto.
      * exists n'. split_and!; [done .. | ].
        intros c'. rewrite Htenants, elem_of_cons. split.
        -- intros [? | [? ?]]; auto.
        -- intros [? | [[-> | ?] ?]]; auto. done.
  - induction cs as [|c cs IH]; cbn [foldr]; [done | ].
    by rewrite lookup_setClusterTenant, IH.
Qed.

End TenantProperties.

Section TenantClosure.

Import objectgraph.

(** The tenants of a node after [setClusterTenants] are those it had and
    its cluster ancestors. *)
Lemma setClusterTenants_lookup (g : gmap string node) (k : string) (n' : node) :
  setClusterTenants g !! k = Some n' ->
  ∃ n, g !! k = Some n
       /\ sameButTenants n n'
       /\ ∀ c, c ∈ tenantClusters n' <->
               c ∈ tenantClusters n \/ clusterAncestor g k c.
Proof.
  intros Hn'. unfold setClusterTenants in Hn'.
  pose proof (setClusterTenants_fold g (getClusters g) k) as Hfold.
  destruct (g !! k) as [n|]; [ | congruence].
  destruct Hfold as (n'' & Hn'' & Hsame & Htenants).
  assert (n'' = n') as -> by congruence.
  exists n. split_and!; [done .. | ].
  intros c. rewrite Htenants. unfold clusterAncestor.
  rewrite elem_of_getClusters. split.
  - intros [? | [(nc & Hc & Hflag) Hreach]]; [by left | right].
    split; [by exists nc | ].
    apply rtc_childOf_parentOf, elem_of_descendants; by rewrite ?Hc.
  - intros [? | [(nc & Hc & Hflag) Hreach]]; [by left | right].
    split; [by exists nc | ].
    apply elem_of_descendants, rtc_childOf_parentOf; by rewrite ?Hc.
Qed.

(** C2: on a graph whose nodes have no tenant yet, after [setSoftOwnership]
    and then [setClusterTenants] the tenants of every node are exactly its
    cluster ancestors along owner and soft owner edges, a cluster node being
    its own ancestor: a node without cluster ancestor has no tenant, and a
    cluster node is among its own tenants.  In the scenario of a cluster
    with its infrastructure cluster, its two secrets and an orphan template,
    the four objects of the cluster have the cluster as their only tenant
    and the orphan has none. *)
Theorem setClusterTenants_cluster_ancestors
    (suffixes : list string) (g0 : gmap string node) (k : string) (n : node) :
  (∀ k0 n0, g0 !! k0 = Some n0 -> tenantClusters n0 = ∅) ->
  setClusterTenants (setSoftOwnership suffixes g0) !! k = Some n ->
  ((∀ c, c ∈ tenantClusters n <->
         clusterAncestor (setSoftOwnership suffixes g0) k c)
   /\ ((∀ c, ¬ clusterAncestor (setSoftOwnership suffixes g0) k c) ->
       tenantClusters n = ∅)
   /\ (isCluster n = true -> k ∈ tenantClusters n))
  /\ tenantClusters
       <$> setClusterTenants (setSoftOwnership defaultSuffixes scenario.tenantGraph)
     = list_to_map
         [ ("Cluster, ns1/foo", {[ "Cluster, ns1/foo" ]});
           ("DummyInfrastructureCluster, ns1/foo", {[ "Cluster, ns1/foo" ]});
           ("Secret, ns1/foo-ca", {[ "Cluster, ns1/foo" ]});
           ("Secret, ns1/foo-kubeconfig", {[ "Cluster, ns1/foo" ]});
           ("DummyInfrastructureMachineTemplate, ns1/orphan", ∅) ].
Proof.
  intros Hfresh Hn. split; [ | by_evaluation].
  apply setClusterTenants_lookup in Hn as (n1 & Hn1 & Hsame & Htenants).
  assert (tenantClusters n1 = ∅) as Hempty.
  { unfold setSoftOwnership in Hn1. rewrite lookup_fmap in Hn1.
    destruct (g0 !! k) as [n0|] eqn:Hn0; [ | done].
    simpl in Hn1. injection Hn1 as <-.
    specialize (Hfresh _ _ Hn0). by destruct (isSecret n0). }
  assert (∀ c, c ∈ tenantClusters n <->
               clusterAncestor (setSoftOwnership suffixes g0) k c) as Hexact.
  { intros c. rewrite Htenants, Hempty. set_solver. }
  split_and!.
  - exact Hexact.
  - intros Hnone. apply elem_of_equiv_empty_L. intros c Hc.
    by apply (Hnone c), Hexact.
  - intros Hflag. apply Hexact. split; [ | done].
    exists n1. split; [done | ].
    destruct Hsame as (_ & _ & _ & _ & <- & _). done.
Qed.

End TenantClosure.

(** ** The properties on the scenarios *)

Section Scenarios.

Import config clusterctlv1 cluster scenario.

Ltac each_element :=
  repeat (first [apply List.Forall_nil | apply List.Forall_cons]).

(** The reader holds [providers] only: [images] is not set. *)
Lemma UnmarshalKey_unset_key_witness :
  variables (WithVar NewMemoryReader "providers" "[]") !! "images" = None
  /\ (UnmarshalKey string (λ data _, (data, None))
        (WithVar NewMemoryReader "providers" "[]") "images" "untouched"
      = ("untouched", None)
      /\ Get (WithVar NewMemoryReader "providers" "[]") "images"
         = ("", Some (New "value for variable %q is not set" ["images"]))).
Proof.
  split; [by vm_compute | ].
  apply (UnmarshalKey_unset_key_is_silent string (λ data _, (data, None))).
  by vm_compute.
Defined.

(** Scenario S3: the plan for [v1alpha4] is dropped, the plan for
    [v1alpha3] is returned with core [v0.3.11] and nothing for the two other
    providers. *)
Example Plan_scenario_S3 : Plan (Q := inventory) = ([patchPlan], None).
Proof. by vm_compute. Qed.

Lemma Plan_drops_partial_contract_switch_witness :
  GetManagementGroups (UpgraderQueries := inventory) = ([group], None)
  /\ Forall (groupReadable (Q := inventory)) [group]
  /\ ∃ plans,
      Plan (Q := inventory) = (plans, None)
      /\ ∀ mg contract,
          mg ∈ [group] ->
          contract ∈ groupContracts (Q := inventory) mg ->
          (contract ≠ groupContract (Q := inventory) mg ->
           Exists (λ i, NextVersion i = "")
             (Providers (candidatePlan (Q := inventory) mg contract)) ->
           candidatePlan (Q := inventory) mg contract ∉ plans)
          /\ (contract = groupContract (Q := inventory) mg ->
              candidatePlan (Q := inventory) mg contract ∈ plans).
Proof.
  assert (Forall (groupReadable (Q := inventory)) [group]) as Hreadable.
  { each_element. repeat split; [by vm_compute | each_element; by vm_compute]. }
  exact (conj eq_refl (conj Hreadable
           (Plan_drops_partial_contract_switch (Q := inventory) [group]
              eq_refl Hreadable))).
Defined.

(** C9: on the inventory whose core provider yields no contract for
    upgrade, [Plan] returns no plan and a nil error: the error built for
    this case wraps the nil error left by the successful call before it. *)
Theorem Plan_invalid_metadata_returns_no_error :
  getContractsForUpgrade (UpgraderQueries := invalidMetadata)
    (getUpgradeInfo (UpgraderQueries := invalidMetadata) coreProvider).1 = []
  /\ Plan (Q := invalidMetadata) = ([], None).
Proof. by vm_compute. Qed.

#[local] Existing Instance inventory.

(** Scenario S4: the infrastructure provider is left behind. *)
Example createCustomPlan_scenario_S4 :
  createCustomPlan coreProvider requestedItems
  = Err (ContractLagging "aws-system/aws" "v1alpha3" "v1alpha4").
Proof. by vm_compute. Qed.

Example createCustomPlan_mixed_contracts :
  createCustomPlan coreProvider mixedItems
  = Err (ContractMismatch "kubeadm-system/kubeadm" "v1alpha3" "v1alpha4").
Proof. by vm_compute. Qed.

Example createCustomPlan_patch :
  createCustomPlan coreProvider patchItems
  = Ok {| Contract := "v1alpha3";
          CoreProvider := coreProvider;
          Providers := [ {| Provider := coreProvider; NextVersion := "v0.3.11" |} ] |}.
Proof. by vm_compute. Qed.

(** Two requests: [mixedItems], whose bootstrap item stays on another
    contract, and [bareItems], whose item carries no watched namespace and
    comes out with the one of the inventory. *)
Lemma createCustomPlan_contract_mismatch_witness :
  (getManagementGroup coreProvider = Ok group
   /\ getProviderContractByVersion (mg_CoreProvider group)
        (coreTargetVersion group mixedItems) = Ok "v1alpha4"
   /\ Forall (λ item, is_Some (itemContract group item)) mixedItems
   /\ Exists (λ item, itemContract group item ≠ Some "v1alpha4") mixedItems
   /\ ∃ pre item post contract,
        mixedItems = pre ++ item :: post
        /\ Forall (λ item, itemContract group item = Some "v1alpha4") pre
        /\ itemContract group item = Some contract
        /\ contract ≠ "v1alpha4"
        /\ createCustomPlan coreProvider mixedItems
           = Err (ContractMismatch (InstanceName (Provider item)) contract
                    "v1alpha4"))
  /\ (getManagementGroup coreProvider = Ok group
      /\ getProviderContractByVersion (mg_CoreProvider group)
           (coreTargetVersion group bareItems) = Ok "v1alpha3"
      /\ Forall (λ item, is_Some (itemContract group item)) bareItems
      /\ Forall (λ item, itemContract group item = Some "v1alpha3") bareItems
      /\ Forall (upToDate bareItems "v1alpha3") (mg_Providers group)
      /\ createCustomPlan coreProvider bareItems
         = Ok (customPlan group "v1alpha3" bareItems)
      /\ (Contract (customPlan group "v1alpha3" bareItems) = "v1alpha3"
          /\ CoreProvider (customPlan group "v1alpha3" bareItems)
             = mg_CoreProvider group
          /\ Forall2 (carriedOver group) bareItems
               (Providers (customPlan group "v1alpha3" bareItems)))
      /\ customPlan group "v1alpha3" bareItems = carriedPlan
      /\ WatchedNamespace ∘ Provider <$> bareItems = [""]
      /\ WatchedNamespace ∘ Provider <$> Providers carriedPlan
         = ["watched-cluster-api"]).
Proof.
  split.
  - assert (getManagementGroup coreProvider = Ok group) as Hgroup
      by (by vm_compute).
    assert (getProviderContractByVersion (mg_CoreProvider group)
              (coreTargetVersion group mixedItems) = Ok "v1alpha4") as Htarget
      by (by vm_compute).
    assert (Forall (λ item, is_Some (itemContract group item)) mixedItems)
      as Hitems by (each_element; vm_compute; eauto).
    assert (Exists (λ item, itemContract group item ≠ Some "v1alpha4") mixedItems)
      as Hmismatch by (right; left; by vm_compute).
    exact (conj Hgroup (conj Htarget (conj Hitems (conj Hmismatch
             (proj1 (createCustomPlan_contract_mismatch coreProvider mixedItems
                       group "v1alpha4" Hgroup Htarget Hitems) Hmismatch))))).
  - assert (getManagementGroup coreProvider = Ok group) as Hgroup
      by (by vm_compute).
    assert (getProviderContractByVersion (mg_CoreProvider group)
              (coreTargetVersion group bareItems) = Ok "v1alpha3") as Htarget
      by (by vm_compute).
    assert (Forall (λ item, is_Some (itemContract group item)) bareItems)
      as Hitems by (each_element; vm_compute; eauto).
    assert (Forall (λ item, itemContract group item = Some "v1alpha3")
              bareItems) as Hpass by (each_element; by vm_compute).
    assert (Forall (upToDate bareItems "v1alpha3") (mg_Providers group))
      as Hmembers
      by (each_element; apply (bool_decide_unpack _); by vm_compute).
    pose proof (proj2 (createCustomPlan_contract_mismatch coreProvider
                         bareItems group "v1alpha3" Hgroup Htarget Hitems)
                  Hpass) as (_ & Hok & Hcarried).
    exact (conj Hgroup (conj Htarget (conj Hitems (conj Hpass
             (conj Hmembers (conj (Hok Hmembers)
                (conj (Hcarried _ (Hok Hmembers))
                   (conj eq_refl (conj eq_refl eq_refl))))))))).
Defined.

Lemma ApplyCustomPlan_contract_lagging_witness :
  getManagementGroup coreProvider = Ok group
  /\ getProviderContractByVersion (mg_CoreProvider group)
       (coreTargetVersion group requestedItems) = Ok "v1alpha4"
  /\ Forall (λ item, itemContract group item = Some "v1alpha4") requestedItems
  /\ Forall (λ provider,
               supplied requestedItems provider
               \/ is_Some (currentContractOf provider))
       (mg_Providers group)
  /\ Exists (λ provider, ¬ upToDate requestedItems "v1alpha4" provider)
       (mg_Providers group)
  /\ ∃ pre provider post contract,
       mg_Providers group = pre ++ provider :: post
       /\ Forall (upToDate requestedItems "v1alpha4") pre
       /\ ¬ supplied requestedItems provider
       /\ currentContractOf provider = Some contract
       /\ contract ≠ "v1alpha4"
       /\ createCustomPlan coreProvider requestedItems
          = Err (ContractLagging (InstanceName provider) contract "v1alpha4")
       /\ ∀ st : state (E := env),
           ApplyCustomPlan coreProvider requestedItems st
           = (Some (ContractLagging (InstanceName provider) contract
                      "v1alpha4"), st).
Proof.
  assert (getManagementGroup coreProvider = Ok group) as Hgroup
    by (by vm_compute).
  assert (getProviderContractByVersion (mg_CoreProvider group)
            (coreTargetVersion group requestedItems) = Ok "v1alpha4") as Htarget
    by (by vm_compute).
  assert (Forall (λ item, itemContract group item = Some "v1alpha4")
            requestedItems) as Hitems
    by (each_element; by vm_compute).
  assert (Forall (λ provider,
                    supplied requestedItems provider
                    \/ is_Some (currentContractOf provider))
            (mg_Providers group)) as Hknown
    by (each_element; right; vm_compute; eauto).
  assert (Exists (λ provider, ¬ upToDate requestedItems "v1alpha4" provider)
            (mg_Providers group)) as Hlagging
    by (right; right; left; apply (bool_decide_unpack _); by vm_compute).
  exact (conj Hgroup (conj Htarget (conj Hitems (conj Hknown (conj Hlagging
           (proj1 (ApplyCustomPlan_contract_lagging (E := env) coreProvider
                     requestedItems group "v1alpha4" Hgroup Htarget Hitems
                     Hknown) Hlagging)))))).
Defined.

(** Scenario S3 carried out: one fetch, one deletion, one installation, and
    the core provider alone has changed. *)
Example doUpgrade_scenario_S3 :
  (doUpgrade (E := env) patchPlan state0).1 = None
  /\ controllers (world (doUpgrade (E := env) patchPlan state0).2)
     = [("cluster-api", "v0.3.11"); ("kubeadm", "v0.3.9"); ("aws", "v0.5.4")]
  /\ crds (world (doUpgrade (E := env) patchPlan state0).2)
     = ["cluster-api"; "kubeadm"; "aws"]
  /\ namespaces (world (doUpgrade (E := env) patchPlan state0).2)
     = namespaces cluster0
  /\ length (trace (doUpgrade (E := env) patchPlan state0).2) = 3.
Proof. by vm_compute. Qed.

(** A version which cannot be fetched: nothing is deleted. *)
Example doUpgrade_fetch_fails :
  doUpgrade (E := environment "v0.3.11") patchPlan
    (@Build_state (environment "v0.3.11") cluster0 [])
  = (Errorf "version %s not found" ["v0.3.11"],
     @Build_state (environment "v0.3.11") cluster0
       [Fetched {| Provider := coreProvider; NextVersion := "v0.3.11" |}
          (Err (New "version %s not found" ["v0.3.11"]))]).
Proof. by vm_compute. Qed.


End Scenarios.

Section GraphScenarios.

Import objectgraph scenario.

#[local] Existing Instance types.

Lemma addObject_owner_virtual_until_observed_witness :
  keyed (∅ : gmap string node)
  /\ ownedBy machineSet ∈ obj_OwnerReferences machine
  /\ or_UID (ownedBy machineSet) = obj_UID machineSet
  /\ obj_UID machine ≠ obj_UID machineSet
  /\ (∅ : gmap string node) !! obj_UID machineSet = None
  /\ (addObject ∅ machine = Ok (graphOf [machine])
      /\ addObject (graphOf [machine]) machineSet
         = Ok (graphOf [machine; machineSet])
      /\ addObject ∅ machineSet = Ok (graphOf [machineSet])
      /\ addObject (graphOf [machineSet]) machine
         = Ok (graphOf [machineSet; machine]))
  /\ ((∃ n, graphOf [machine] !! obj_UID machineSet = Some n
            /\ virtual n = true)
      /\ length (nodesWithUID (graphOf [machine]) (obj_UID machineSet)) = 1
      /\ (∃ n, graphOf [machine] !! obj_UID machine = Some n
               /\ obj_UID machineSet ∈ owners n)
      /\ (∃ n, graphOf [machine; machineSet] !! obj_UID machineSet = Some n
               /\ virtual n = false)
      /\ length (nodesWithUID (graphOf [machine; machineSet])
                   (obj_UID machineSet)) = 1
      /\ (∃ n, graphOf [machine; machineSet] !! obj_UID machine = Some n
               /\ obj_UID machineSet ∈ owners n)
      /\ ∀ uid, length (nodesWithUID (graphOf [machine; machineSet]) uid) ≤ 1)
  /\ ((∃ n, graphOf [machineSet; machine] !! obj_UID machineSet = Some n
            /\ virtual n = false)
      /\ length (nodesWithUID (graphOf [machineSet; machine])
                   (obj_UID machineSet)) = 1
      /\ (∃ n, graphOf [machineSet; machine] !! obj_UID machine = Some n
               /\ obj_UID machineSet ∈ owners n)
      /\ ∀ uid, length (nodesWithUID (graphOf [machineSet; machine]) uid) ≤ 1).
Proof.
  assert (keyed (∅ : gmap string node)) as Hkeyed by apply map_Forall_empty.
  assert (ownedBy machineSet ∈ obj_OwnerReferences machine) as Hr by (by left).
  assert (obj_UID machine ≠ obj_UID machineSet) as Hne by (by vm_compute).
  assert (addObject ∅ machine = Ok (graphOf [machine])
          /\ addObject (graphOf [machine]) machineSet
             = Ok (graphOf [machine; machineSet])
          /\ addObject ∅ machineSet = Ok (graphOf [machineSet])
          /\ addObject (graphOf [machineSet]) machine
             = Ok (graphOf [machineSet; machine])) as Hadded
    by by_evaluation.
  pose proof Hadded as (H1 & H2 & H3 & H4).
  pose proof (addObject_owner_virtual_until_observed ∅ machine machineSet
                (ownedBy machineSet) Hkeyed Hr eq_refl Hne (lookup_empty _))
    as [Hfirst Hsecond].
  exact (conj Hkeyed (conj Hr (conj eq_refl (conj Hne (conj (lookup_empty _)
           (conj Hadded (conj (Hfirst _ _ H1 H2) (Hsecond _ _ H3 H4)))))))).
Defined.

Lemma setSoftOwnership_longest_match_witness :
  dashedGraph !! "Secret, ns1/foo-bar-ca" = Some dashedCA
  /\ isSecret dashedCA = true
  /\ ∃ secret',
      setSoftOwnership defaultSuffixes dashedGraph !! "Secret, ns1/foo-bar-ca"
      = Some secret'
      /\ (∀ uc, uc ∈ softOwners secret' <->
                uc ∈ softOwners dashedCA
                \/ longestCandidate defaultSuffixes dashedGraph dashedCA uc)
      /\ ((∀ k c, dashedGraph !! k = Some c ->
                  ¬ candidate defaultSuffixes dashedCA c) ->
          softOwners secret' = softOwners dashedCA).
Proof.
  assert (dashedGraph !! "Secret, ns1/foo-bar-ca" = Some dashedCA) as Hnode
    by by_evaluation.
  exact (conj Hnode (conj eq_refl
           (proj1 (setSoftOwnership_longest_match defaultSuffixes dashedGraph
                     "Secret, ns1/foo-bar-ca" dashedCA Hnode eq_refl)))).
Defined.

Lemma setClusterTenants_cluster_ancestors_witness :
  (∀ k0 n0, tenantGraph !! k0 = Some n0 -> tenantClusters n0 = ∅)
  /\ setClusterTenants (setSoftOwnership defaultSuffixes tenantGraph)
       !! "Secret, ns1/foo-ca" = Some tenantCA
  /\ (∀ c, c ∈ tenantClusters tenantCA <->
           clusterAncestor (setSoftOwnership defaultSuffixes tenantGraph)
             "Secret, ns1/foo-ca" c)
  /\ ((∀ c, ¬ clusterAncestor (setSoftOwnership defaultSuffixes tenantGraph)
              "Secret, ns1/foo-ca" c) ->
      tenantClusters tenantCA = ∅)
  /\ (isCluster tenantCA = true ->
      "Secret, ns1/foo-ca" ∈ tenantClusters tenantCA).
Proof.
  assert (∀ k0 n0, tenantGraph !! k0 = Some n0 -> tenantClusters n0 = ∅)
    as Hfresh.
  { apply (bool_decide_unpack
             (map_Forall (λ _ n0, tenantClusters n0 = ∅) tenantGraph)).
    vm_cast_no_check I. }
  assert (setClusterTenants (setSoftOwnership defaultSuffixes tenantGraph)
            !! "Secret, ns1/foo-ca" = Some tenantCA) as Hnode
    by by_evaluation.
  exact (conj Hfresh (conj Hnode
           (proj1 (setClusterTenants_cluster_ancestors defaultSuffixes
                     tenantGraph "Secret, ns1/foo-ca" tenantCA Hfresh Hnode)))).
Defined.

End GraphScenarios.

(* ================================================================= *)
(** * Further properties *)

(** ** The upgrade planner, continued *)

Section PlannerMore.

Import clusterctlv1 cluster.
Context `{Q : UpgraderQueries}.

Lemma Plan_groups_error managementGroups ret :
  (Plan_groups managementGroups ret).2 ≠ None ->
  (Plan_groups managementGroups ret).1 = [].
Proof.
  revert ret. induction managementGroups as [|mg groups IH]; intros ret; simpl.
  - done.
  - destruct (getUpgradeInfo (mg_CoreProvider mg)) as [info [e|]]; [done | ].
    case_bool_decide; [done | ].
    destruct (Plan_contracts mg info (getContractsForUpgrade info) ret);
      [apply IH | done].
Qed.

(** X1: [Plan] never returns plans together with an error: when it returns
    an error, the list of plans is empty, whatever was planned for the
    management groups handled before the failure. *)
Theorem Plan_error_drops_every_plan :
  Plan.2 ≠ None -> Plan.1 = [].
Proof.
  unfold Plan. destruct GetManagementGroups as [groups [e|]]; [done | ].
  apply Plan_groups_error.
Qed.

(** X2: when the inventory and the upgrade information of every provider
    are available, every plan [Plan] returns is the candidate plan of one of
    the management groups for one of the contracts considered for it: it
    has one item per provider of the group, in the order of the group, and
    if its contract is not the current contract of the group, every item
    has a next version. *)
Theorem Plan_returns_complete_plans
    (managementGroups : list ManagementGroup) (plans : list UpgradePlan)
    (p : UpgradePlan) :
  GetManagementGroups = (managementGroups, None) ->
  Forall groupReadable managementGroups ->
  Plan = (plans, None) ->
  p ∈ plans ->
  ∃ mg,
    mg ∈ managementGroups
    /\ Contract p ∈ groupContracts mg
    /\ p = candidatePlan mg (Contract p)
    /\ Provider <$> Providers p = mg_Providers mg
    /\ (Contract p ≠ groupContract mg ->
        Forall (λ i, NextVersion i ≠ "") (Providers p)).
Proof.
  intros Hgroups Hall HPlan Hp.
  unfold Plan in HPlan. rewrite Hgroups, (Plan_groups_ok _ _ Hall) in HPlan.
  injection HPlan as <-. simpl in Hp.
  apply list_elem_of_bind in Hp as (mg & Hp & Hmg).
  apply list_elem_of_filter in Hp as [Hkeep Hp].
  apply list_elem_of_fmap in Hp as (contract & -> & Hcontract).
  exists mg. simpl. split_and!; [done .. | | ].
  - rewrite <- list_fmap_compose. apply list_fmap_id.
  - intros Hne. apply Forall_forall. intros i Hi Hempty.
    apply Hkeep. split; [done | ].
    apply Exists_exists. by exists i.
Qed.

Lemma createCustomPlan_items_Ok coreProvider managementGroup targetContract
    upgradeItems planProviders upgradeInstanceNames built :
  createCustomPlan_items coreProvider managementGroup targetContract
    upgradeItems planProviders upgradeInstanceNames = Ok built ->
  Forall (λ item, itemContract managementGroup item = Some targetContract)
    upgradeItems.
Proof.
  revert planProviders upgradeInstanceNames.
  induction upgradeItems as [|item items IH]; intros acc names; simpl.
  - constructor.
  - destruct (GetProviderByInstanceName managementGroup
                (InstanceName (Provider item))) as [provider|] eqn:Hp; [ | done].
    destruct (getProviderContractByVersion provider (NextVersion item))
      as [contract|] eqn:Hc; [ | done].
    case_bool_decide as Hne; [done | ].
    intros Hrest. constructor; [ | by eapply IH].
    unfold itemContract. rewrite Hp, Hc. f_equal.
    destruct (decide (contract = targetContract)) as [ | Hn]; [done | by destruct Hne].
Qed.

Lemma createCustomPlan_lagging_Ok upgradeItems targetContract providers :
  createCustomPlan_lagging providers
    (list_to_set ((InstanceName ∘ Provider) <$> upgradeItems) ∪ ∅) targetContract
  = Ok tt ->
  Forall (upToDate upgradeItems targetContract) providers.
Proof.
  induction providers as [|provider providers IH]; simpl.
  - constructor.
  - case_bool_decide as Hin.
    + intros Hrest. constructor; [ | by apply IH].
      left. unfold supplied. set_solver.
    + destruct (getProviderContractByVersion provider (Version provider))
        as [contract|] eqn:Hc; [ | done].
      case_bool_decide as Hne; [done | ].
      intros Hrest. constructor; [ | by apply IH].
      right. unfold currentContractOf. rewrite Hc. f_equal.
    destruct (decide (contract = targetContract)) as [ | Hn]; [done | by destruct Hne].
Qed.

(** X3: a custom plan never mixes contracts.  Whenever [createCustomPlan]
    returns a plan, the contract of the plan is the one supported by the
    target version of the core provider (its current version when it is not
    among the upgrade items), the target version of every upgrade item
    supports that contract, every other member of the management group
    supports it with its current version, and the plan holds the upgrade
    items, in order: for each of them an item whose watched namespace is
    the one of the inventory record with that instance name (whatever the
    upgrade item itself carried) and whose other fields and next version
    are those of the upgrade item. *)
Theorem createCustomPlan_plan_is_consistent
    (coreProvider : clusterctlv1.Provider) (upgradeItems : list UpgradeItem)
    (plan : UpgradePlan) :
  createCustomPlan coreProvider upgradeItems = Ok plan ->
  ∃ managementGroup,
    getManagementGroup coreProvider = Ok managementGroup
    /\ getProviderContractByVersion (mg_CoreProvider managementGroup)
         (coreTargetVersion managementGroup upgradeItems) = Ok (Contract plan)
    /\ Forall (λ item, itemContract managementGroup item = Some (Contract plan))
         upgradeItems
    /\ Forall (upToDate upgradeItems (Contract plan))
         (mg_Providers managementGroup)
    /\ plan = customPlan managementGroup (Contract plan) upgradeItems
    /\ CoreProvider plan = mg_CoreProvider managementGroup
    /\ Forall2 (carriedOver managementGroup) upgradeItems (Providers plan).
Proof.
  unfold createCustomPlan.
  destruct (getManagementGroup coreProvider) as [mg|] eqn:Hmg; [ | done].
  simpl. rewrite targetCoreProviderVersion_loop_find.
  fold (coreTargetVersion mg upgradeItems).
  destruct (getProviderContractByVersion _ (coreTargetVersion mg upgradeItems))
    as [target|] eqn:Htarget; [ | done].
  simpl.
  destruct (createCustomPlan_items _ _ _ _ _ _) as [built|] eqn:Hitems;
    [ | done].
  pose proof (createCustomPlan_items_Ok _ _ _ _ _ _ _ Hitems) as Hpass.
  rewrite (createCustomPlan_items_pass _ _ _ _ [] ∅ Hpass) in Hitems.
  injection Hitems as <-. simpl.
  destruct (createCustomPlan_lagging _ _ _) as [[]|] eqn:Hlagging; [ | done].
  simpl. intros [= <-]. simpl.
  exists mg. split_and!; try done.
  - by apply createCustomPlan_lagging_Ok.
  - apply carryOver_carriedOver.
    eapply Forall_impl; [exact Hpass | ]. simpl. by intros item ->.
Qed.

(** X4: an upgrade item which is no member of the management group makes
    [createCustomPlan] fail with an error naming the item and the core
    provider it was called with, once the items before it have passed their
    checks; the members of the group are not examined. *)
Theorem createCustomPlan_rejects_strangers
    (coreProvider : clusterctlv1.Provider) (managementGroup : ManagementGroup)
    (targetContract : string) (pre post : list UpgradeItem) (item : UpgradeItem) :
  getManagementGroup coreProvider = Ok managementGroup ->
  getProviderContractByVersion (mg_CoreProvider managementGroup)
    (coreTargetVersion managementGroup (pre ++ item :: post))
  = Ok targetContract ->
  Forall (λ item, itemContract managementGroup item = Some targetContract) pre ->
  GetProviderByInstanceName managementGroup (InstanceName (Provider item)) = None ->
  createCustomPlan coreProvider (pre ++ item :: post)
  = Err (NotInManagementGroup (InstanceName (Provider item))
           (InstanceName coreProvider)).
Proof.
  intros Hmg Htarget Hpre Hstranger. unfold createCustomPlan.
  rewrite Hmg. simpl. rewrite targetCoreProviderVersion_loop_find.
  fold (coreTargetVersion managementGroup (pre ++ item :: post)).
  rewrite Htarget. simpl.
  assert (∀ acc names,
            createCustomPlan_items coreProvider managementGroup targetContract
              (pre ++ item :: post) acc names
            = Err (NotInManagementGroup (InstanceName (Provider item))
                     (InstanceName coreProvider))) as Hitems.
  { clear Htarget.
    induction Hpre as [|x pre Hx _ IH]; intros acc names; simpl.
    - by rewrite Hstranger.
    - apply itemContract_Some in Hx as (provider & -> & ->).
      rewrite bool_decide_false by (intros H; by apply H). apply IH. }
  by rewrite Hitems.
Qed.

End PlannerMore.

(** ** Applying an upgrade plan, continued *)

Section UpgradeMore.

Import clusterctlv1 cluster.
Context `{Q : UpgraderQueries} `{E : UpgradeEnv}.

(** X5: [ApplyPlan] carries out the candidate plan of the management group
    for the contract it is given, whatever that plan is: unlike [Plan], it
    does not drop a plan which leaves some provider without a next version
    while changing the contract.  When the management group cannot be found
    it returns the error and makes no call. *)
Theorem ApplyPlan_runs_the_candidate_plan
    (coreProvider : clusterctlv1.Provider) (contract : string) (st : state) :
  (∀ e, getManagementGroup coreProvider = Err e ->
        ApplyPlan coreProvider contract st = (Some e, st))
  /\ (∀ managementGroup,
        getManagementGroup coreProvider = Ok managementGroup ->
        Forall (λ provider, (getUpgradeInfo provider).2 = None)
          (mg_Providers managementGroup) ->
        ApplyPlan coreProvider contract st
        = doUpgrade (candidatePlan managementGroup contract) st).
Proof.
  unfold ApplyPlan. split.
  - by intros e ->.
  - intros mg -> Hall. by rewrite getUpgradePlan_ok.
Qed.

(** X6: carrying out the items of a plan one part after the other is
    carrying out the whole: the second part runs in the state the first
    part leaves, and only if the first part returned no error. *)
Theorem doUpgrade_loop_app (items1 items2 : list UpgradeItem) (st : state) :
  doUpgrade_loop (items1 ++ items2) st
  = match doUpgrade_loop items1 st with
    | (Some e, st') => (Some e, st')
    | (None, st') => doUpgrade_loop items2 st'
    end.
Proof.
  revert st. induction items1 as [|i items IH]; intros st; simpl.
  - done.
  - case_bool_decide; [apply IH | ].
    destruct (call_getUpgradeComponents i st) as [[c|e] st1]; [ | done].
    destruct (call_Delete _ st1) as [[e|] st2]; [done | ].
    destruct (call_install c st2) as [[e|] st3]; [done | apply IH].
Qed.

(** X7: a plan none of whose items has a next version is carried out
    without any call: [doUpgrade] returns no error and leaves the state,
    trace included, as it was. *)
Theorem doUpgrade_nothing_to_upgrade (upgradePlan : UpgradePlan) (st : state) :
  Forall (λ i, NextVersion i = "") (Providers upgradePlan) ->
  doUpgrade upgradePlan st = (None, st).
Proof.
  unfold doUpgrade. induction 1 as [|i items Hi _ IH]; simpl; [done | ].
  by rewrite bool_decide_true.
Qed.

End UpgradeMore.

(** ** The in-memory reader, continued *)

Section MemoryReaderMore.

Import config memoryreader.

(** X8: a value stored with [Set] (or [WithVar]) is the one [Get] returns
    for that key, without error, and the other keys read as before. *)
Theorem Get_after_Set (f : MemoryReader) (key value key' : string) :
  Get (Set_ f key value) key'
  = (if bool_decide (key' = key) then (value, None) else Get f key')
  /\ Get (WithVar f key value) key' = Get (Set_ f key value) key'.
Proof.
  split; [ | done]. unfold Get, Set_. simpl. case_bool_decide as Hkey.
  - subst. by rewrite lookup_insert_eq.
  - by rewrite lookup_insert_ne.
Qed.

(** X9: for a key which has been set, [UnmarshalKey] is [yaml.Unmarshal] of
    the stored value into the output value: it returns what the decoder
    returns, its error included. *)
Theorem UnmarshalKey_after_Set
    (V : Type) (yaml_Unmarshal : string -> V -> V * error)
    (f : MemoryReader) (key data : string) (rawval : V) :
  UnmarshalKey V yaml_Unmarshal (Set_ f key data) key rawval
  = yaml_Unmarshal data rawval.
Proof.
  unfold UnmarshalKey, Get, Set_. simpl. by rewrite lookup_insert_eq.
Qed.

Variable yaml_Marshal_providers : list configProvider -> string * error.
Variable yaml_Marshal_imageMetas : gmap string imageMeta -> string * error.

#[local] Abbreviation Init := (Init yaml_Marshal_providers yaml_Marshal_imageMetas).
#[local] Abbreviation withProviders := (withProviders yaml_Marshal_providers).

(** X10: when [Init] returns no error, the variables [providers] and
    [images] hold the encoded providers and image metadata, every other
    variable reads as before, the providers and image metadata are as they
    were, and a second [Init] changes nothing. *)
Theorem Init_sets_providers_and_images (f : MemoryReader) (config1 config2 : string) :
  (Init f config1).2 = None ->
  Get (Init f config1).1 "providers"
  = ((yaml_Marshal_providers (providers f)).1, None)
  /\ Get (Init f config1).1 "images"
     = ((yaml_Marshal_imageMetas (imageMetas f)).1, None)
  /\ (∀ key, key ≠ "providers" -> key ≠ "images" ->
             Get (Init f config1).1 key = Get f key)
  /\ providers (Init f config1).1 = providers f
  /\ imageMetas (Init f config1).1 = imageMetas f
  /\ Init (Init f config1).1 config2 = ((Init f config1).1, None).
Proof.
  unfold memoryreader.Init.
  destruct (yaml_Marshal_providers (providers f)) as [d1 [e|]] eqn:Hp; [done | ].
  simpl.
  destruct (yaml_Marshal_imageMetas (imageMetas f)) as [d2 [e|]] eqn:Hi; [done | ].
  intros _. simpl. rewrite Hp, Hi. simpl. split_and!; try done.
  - unfold Get. simpl. rewrite lookup_insert_ne by done.
    by rewrite lookup_insert_eq.
  - unfold Get. simpl. by rewrite lookup_insert_eq.
  - intros key Hkp Hki. unfold Get. simpl.
    by rewrite !lookup_insert_ne by done.
  - unfold Set_. simpl. f_equal. f_equal.
    rewrite (insert_insert_ne _ "providers" "images") by done.
    by rewrite !insert_insert_eq.
Qed.

(** X11: [WithProvider] keeps the providers in the order they were added,
    after those the reader had, and leaves the variable [providers] set to
    the encoding of the whole list, whatever the encoder's error; the image
    metadata are untouched. *)
Theorem WithProvider_keeps_order
    (f : MemoryReader) (ps : list (string * string * string))
    (p : string * string * string) :
  providers (withProviders f (ps ++ [p]))
  = providers f ++ (configProviderOf <$> ps) ++ [configProviderOf p]
  /\ Get (withProviders f (ps ++ [p])) "providers"
     = ((yaml_Marshal_providers
           (providers f ++ (configProviderOf <$> ps) ++ [configProviderOf p])).1,
        None)
  /\ imageMetas (withProviders f (ps ++ [p])) = imageMetas f.
Proof.
  assert (∀ qs g,
            providers (withProviders g qs)
            = providers g ++ (configProviderOf <$> qs)
            /\ imageMetas (withProviders g qs) = imageMetas g) as Hfold.
  { induction qs as [|q qs IH]; intros g; simpl.
    - by rewrite app_nil_r.
    - destruct (IH (WithProvider yaml_Marshal_providers g q.1.1 q.1.2 q.2))
        as [-> ->].
      unfold WithProvider.
      destruct (yaml_Marshal_providers _) as [yaml err]. simpl.
      by rewrite <- app_assoc. }
  unfold memoryreader.withProviders. rewrite foldl_app. simpl.
  fold (withProviders f ps).
  destruct (Hfold ps f) as [Hps Himages].
  unfold WithProvider. rewrite Hps, <- app_assoc.
  change (configProviderOf p)
    with {| cp_Name := p.1.1; cp_URL := p.2; cp_Type := p.1.2 |}.
  destruct (yaml_Marshal_providers _) as [yaml err]. simpl.
  split_and!; [done | | done].
  unfold Get. simpl. by rewrite lookup_insert_eq.
Qed.

End MemoryReaderMore.

(** ** The in-memory repository *)

Section RepositoryProperties.

Import repository.

Variable LatestRelease : MemoryRepository -> string * error.
Variable LatestContractRelease : MemoryRepository -> string -> string * error.
Variable clusterv1_GroupVersion_Version : string.

#[local] Abbreviation GetFile := (GetFile LatestRelease).
#[local] Abbreviation WithFile :=
  (WithFile LatestContractRelease clusterv1_GroupVersion_Version).

(** The loop over the files finds what the map holds under the key. *)
Lemma GetFile_loop_lookup (m : gmap string string) (target : string) :
  GetFile_loop (map_to_list m) target = m !! target.
Proof.
  induction m as [|k c m Hk Hfirst IH] using map_first_key_ind.
  - by rewrite map_to_list_empty, lookup_empty.
  - rewrite map_to_list_insert_first_key by done. simpl.
    case_bool_decide as Heq.
    + subst. by rewrite lookup_insert_eq.
    + by rewrite lookup_insert_ne.
Qed.

Lemma WithFile_versions_files f version path content :
  versions (WithFile f version path content) = <[version := true]> (versions f)
  /\ files (WithFile f version path content)
     = <[vpath version path := content]> (files f).
Proof.
  unfold repository.WithFile. destruct (_ !! vpath version "metadata.yaml");
    [ | done].
  unfold updateVersions. by destruct (LatestContractRelease _ _) as [? []].
Qed.

(** Asking for a file of the empty version is asking for it in the default
    version of the repository. *)
Lemma GetFile_empty_version_is_default (f : MemoryRepository) (path : string) :
  GetFile f "" path = GetFile f (defaultVersion f) path.
Proof.
  unfold repository.GetFile. rewrite (bool_decide_true ("" = "")) by done.
  by destruct (bool_decide (defaultVersion f = "")).
Qed.

(** A file of a registered version, neither empty nor [latest], is looked up
    under ["<version>/<path>"]. *)
Lemma GetFile_registered (f : MemoryRepository) (version path : string) :
  version ≠ "" -> version ≠ "latest" ->
  is_Some (versions f !! version) ->
  GetFile f version path
  = match files f !! vpath version path with
    | Some c => Ok c
    | None => Err (New "unable to get file %s for version %s" [path; version])
    end.
Proof.
  intros Hempty Hlatest [b Hb]. unfold repository.GetFile.
  rewrite (bool_decide_false (version = "")) by done.
  rewrite (bool_decide_false (version = "latest")) by done.
  unfold mbind, result_bind. simpl.
  by rewrite Hb, GetFile_loop_lookup.
Qed.

(** X12: for a version which is neither empty nor [latest], [GetFile] fails
    with its first error when the version is not registered, returns the
    content stored under ["<version>/<path>"] when the version is registered
    and the file is there, and fails with its second error otherwise; the
    order in which the loop meets the files plays no part. *)
Theorem GetFile_finds_what_is_stored
    (f : MemoryRepository) (version path : string) :
  version ≠ "" -> version ≠ "latest" ->
  GetFile f version path
  = match versions f !! version with
    | None => Err (New "unable to get files for version %s" [version])
    | Some _ =>
        match files f !! vpath version path with
        | Some c => Ok c
        | None =>
            Err (New "unable to get file %s for version %s" [path; version])
        end
    end.
Proof.
  intros Hempty Hlatest.
  destruct (versions f !! version) as [b|] eqn:Hb.
  - apply GetFile_registered; [done .. | by rewrite Hb].
  - unfold repository.GetFile.
    rewrite (bool_decide_false (version = "")) by done.
    rewrite (bool_decide_false (version = "latest")) by done.
    unfold mbind, result_bind. simpl. by rewrite Hb.
Qed.

(** X13: a file added with [WithFile] under a version which is neither
    empty nor [latest] is the one [GetFile] returns for that version and
    path. *)
Theorem GetFile_after_WithFile
    (f : MemoryRepository) (version path content : string) :
  version ≠ "" -> version ≠ "latest" ->
  GetFile (WithFile f version path content) version path = Ok content.
Proof.
  intros Hempty Hlatest.
  destruct (WithFile_versions_files f version path content) as [Hv Hf].
  rewrite GetFile_registered, Hf, lookup_insert_eq; [done .. | ].
  by rewrite Hv, lookup_insert_eq.
Qed.

(** X14: files are kept under the concatenation ["<version>/<path>"] only:
    a file added under another version and path with the same concatenation
    replaces the first one, which [GetFile] then no longer returns. *)
Theorem WithFile_paths_collide
    (f : MemoryRepository) (version path content version' path' content' : string) :
  version ≠ "" -> version ≠ "latest" ->
  vpath version' path' = vpath version path ->
  GetFile (WithFile (WithFile f version path content) version' path' content')
    version path
  = Ok content'.
Proof.
  intros Hempty Hlatest Hcollide.
  destruct (WithFile_versions_files (WithFile f version path content)
              version' path' content') as [Hv' Hf'].
  destruct (WithFile_versions_files f version path content) as [Hv _].
  rewrite GetFile_registered, Hf', Hcollide, lookup_insert_eq; [done .. | ].
  rewrite Hv', Hv. destruct (decide (version' = version)) as [-> | Hne].
  - by rewrite lookup_insert_eq.
  - by rewrite lookup_insert_ne, lookup_insert_eq.
Qed.

(** X15: [GetVersions] never fails and lists every registered version
    once; after [WithFile] the versions are those there were and the one of
    the file. *)
Theorem GetVersions_after_WithFile
    (f : MemoryRepository) (version path content v : string) :
  (GetVersions f).2 = None
  /\ NoDup (GetVersions f).1
  /\ (v ∈ (GetVersions (WithFile f version path content)).1
      <-> v = version \/ v ∈ (GetVersions f).1).
Proof.
  unfold GetVersions. simpl. split_and!; [done | apply NoDup_fst_map_to_list | ].
  destruct (WithFile_versions_files f version path content) as [-> _].
  rewrite !list_elem_of_fmap. split.
  - intros ([k b] & -> & Hin). simpl.
    apply elem_of_map_to_list, lookup_insert_Some in Hin
      as [[<- _] | [_ Hin]]; [by left | right].
    exists (k, b). split; [done | by apply elem_of_map_to_list].
  - intros [-> | ([k b] & -> & Hin)].
    + exists (version, true). split; [done | ].
      apply elem_of_map_to_list, lookup_insert_eq.
    + simpl. apply elem_of_map_to_list in Hin.
      destruct (decide (k = version)) as [-> | Hne].
      * exists (version, true). split; [done | ].
        apply elem_of_map_to_list, lookup_insert_eq.
      * exists (k, b). split; [done | ].
        apply elem_of_map_to_list. by rewrite lookup_insert_ne.
Qed.

End RepositoryProperties.

(** ** Predicates *)

Section PredicateProperties.

Import predicates.

Variables UpdateEvent CreateEvent DeleteEvent GenericEvent Object : Type.
Variable ObjectNew : UpdateEvent -> Object.
Variable CreateObject : CreateEvent -> Object.
Variable DeleteObject : DeleteEvent -> Object.
Variable GenericObject : GenericEvent -> Object.
Variable HasPausedAnnotation : Object -> bool.
Variable HasWatchLabel : Object -> string -> bool.

#[local] Abbreviation Funcs :=
  (Funcs UpdateEvent CreateEvent DeleteEvent GenericEvent).

Lemma All_loop_true {Ev : Type} (field : Funcs -> Ev -> bool)
    (ps : list Funcs) (e : Ev) :
  All_loop _ _ _ _ field ps e = true <-> Forall (λ p, field p e = true) ps.
Proof.
  induction ps as [|p ps IH]; simpl.
  - split; [constructor | done].
  - destruct (field p e) eqn:Hp; simpl.
    + rewrite IH. split; [by constructor | by inversion 1].
    + split; [done | ]. inversion 1; congruence.
Qed.

Lemma Any_loop_true {Ev : Type} (field : Funcs -> Ev -> bool)
    (ps : list Funcs) (e : Ev) :
  Any_loop _ _ _ _ field ps e = true <-> Exists (λ p, field p e = true) ps.
Proof.
  induction ps as [|p ps IH]; simpl.
  - split; [done | inversion 1].
  - destruct (field p e) eqn:Hp.
    + split; [by left | done].
    + rewrite IH. split; [by right | ].
      inversion 1; [congruence | done].
Qed.

(** X16: on each of the four kinds of event, [All] lets an event through
    exactly when every given predicate does (so it lets everything through
    when given no predicate), and [Any] exactly when some given predicate
    does (so it blocks everything when given none). *)
Theorem All_and_Any_aggregate (ps : list Funcs)
    (u : UpdateEvent) (c : CreateEvent) (d : DeleteEvent) (g : GenericEvent) :
  ((UpdateFunc _ _ _ _ (All _ _ _ _ ps) u = true
    <-> Forall (λ p, UpdateFunc _ _ _ _ p u = true) ps)
   /\ (CreateFunc _ _ _ _ (All _ _ _ _ ps) c = true
       <-> Forall (λ p, CreateFunc _ _ _ _ p c = true) ps)
   /\ (DeleteFunc _ _ _ _ (All _ _ _ _ ps) d = true
       <-> Forall (λ p, DeleteFunc _ _ _ _ p d = true) ps)
   /\ (GenericFunc _ _ _ _ (All _ _ _ _ ps) g = true
       <-> Forall (λ p, GenericFunc _ _ _ _ p g = true) ps))
  /\ ((UpdateFunc _ _ _ _ (Any _ _ _ _ ps) u = true
       <-> Exists (λ p, UpdateFunc _ _ _ _ p u = true) ps)
      /\ (CreateFunc _ _ _ _ (Any _ _ _ _ ps) c = true
          <-> Exists (λ p, CreateFunc _ _ _ _ p c = true) ps)
      /\ (DeleteFunc _ _ _ _ (Any _ _ _ _ ps) d = true
          <-> Exists (λ p, DeleteFunc _ _ _ _ p d = true) ps)
      /\ (GenericFunc _ _ _ _ (Any _ _ _ _ ps) g = true
          <-> Exists (λ p, GenericFunc _ _ _ _ p g = true) ps)).
Proof.
  split; split_and!; simpl; first [apply All_loop_true | apply Any_loop_true].
Qed.

#[local] Abbreviation ResourceNotPaused :=
  (ResourceNotPaused UpdateEvent CreateEvent DeleteEvent GenericEvent Object
     ObjectNew CreateObject DeleteObject GenericObject HasPausedAnnotation).
#[local] Abbreviation ResourceNotPausedAndHasFilterLabel :=
  (ResourceNotPausedAndHasFilterLabel UpdateEvent CreateEvent DeleteEvent
     GenericEvent Object ObjectNew CreateObject DeleteObject GenericObject
     HasPausedAnnotation HasWatchLabel).

(** X17: [ResourceNotPausedAndHasFilterLabel] lets an event through exactly
    when its object is not paused and, unless the label value is empty,
    carries the watch label with that value; with the empty label value it
    answers as [ResourceNotPaused] does on every event. *)
Theorem ResourceNotPausedAndHasFilterLabel_answers (labelValue : string)
    (u : UpdateEvent) (c : CreateEvent) (d : DeleteEvent) (g : GenericEvent) :
  UpdateFunc _ _ _ _ (ResourceNotPausedAndHasFilterLabel labelValue) u
  = negb (HasPausedAnnotation (ObjectNew u))
    && (bool_decide (labelValue = "") || HasWatchLabel (ObjectNew u) labelValue)
  /\ CreateFunc _ _ _ _ (ResourceNotPausedAndHasFilterLabel labelValue) c
     = negb (HasPausedAnnotation (CreateObject c))
       && (bool_decide (labelValue = "")
           || HasWatchLabel (CreateObject c) labelValue)
  /\ DeleteFunc _ _ _ _ (ResourceNotPausedAndHasFilterLabel labelValue) d
     = negb (HasPausedAnnotation (DeleteObject d))
       && (bool_decide (labelValue = "")
           || HasWatchLabel (DeleteObject d) labelValue)
  /\ GenericFunc _ _ _ _ (ResourceNotPausedAndHasFilterLabel labelValue) g
     = negb (HasPausedAnnotation (GenericObject g))
       && (bool_decide (labelValue = "")
           || HasWatchLabel (GenericObject g) labelValue)
  /\ sameAnswers _ _ _ _ (ResourceNotPausedAndHasFilterLabel "")
       ResourceNotPaused.
Proof.
  split_and!; simpl; unfold processIfNotPaused, processIfLabelMatch.
  - destruct (HasPausedAnnotation _); [done | ]. simpl.
    case_bool_decide; [done | ]. by destruct (HasWatchLabel _ _).
  - destruct (HasPausedAnnotation _); [done | ]. simpl.
    case_bool_decide; [done | ]. by destruct (HasWatchLabel _ _).
  - destruct (HasPausedAnnotation _); [done | ]. simpl.
    case_bool_decide; [done | ]. by destruct (HasWatchLabel _ _).
  - destruct (HasPausedAnnotation _); [done | ]. simpl.
    case_bool_decide; [done | ]. by destruct (HasWatchLabel _ _).
  - unfold sameAnswers. simpl. unfold processIfNotPaused, processIfLabelMatch.
    split_and!; intros e; by destruct (HasPausedAnnotation _).
Qed.

End PredicateProperties.

(** ** Further scenarios *)

Section FurtherScenarios.

Import config clusterctlv1 cluster scenario examples.

Ltac each_member :=
  repeat (first [apply List.Forall_nil | apply List.Forall_cons]).

(** The second management group cannot be read: the plan built for the
    first one is not returned. *)
Lemma Plan_error_drops_every_plan_witness :
  (Plan (Q := twoGroups)).2 ≠ None /\ (Plan (Q := twoGroups)).1 = [].
Proof.
  assert ((Plan (Q := twoGroups)).2 ≠ None) as Herr by (by vm_compute).
  exact (conj Herr (Plan_error_drops_every_plan (Q := twoGroups) Herr)).
Defined.

#[local] Existing Instance inventory.

Lemma Plan_returns_complete_plans_witness :
  GetManagementGroups = ([group], None)
  /\ Forall groupReadable [group]
  /\ Plan = ([patchPlan], None)
  /\ patchPlan ∈ [patchPlan]
  /\ ∃ mg,
       mg ∈ [group]
       /\ Contract patchPlan ∈ groupContracts mg
       /\ patchPlan = candidatePlan mg (Contract patchPlan)
       /\ Provider <$> Providers patchPlan = mg_Providers mg
       /\ (Contract patchPlan ≠ groupContract mg ->
           Forall (λ i, NextVersion i ≠ "") (Providers patchPlan)).
Proof.
  assert (Forall groupReadable [group]) as Hreadable.
  { each_member. repeat split; [by vm_compute | each_member; by vm_compute]. }
  assert (Plan = ([patchPlan], None)) as HPlan by (by vm_compute).
  assert (patchPlan ∈ [patchPlan]) as Hin by apply list_elem_of_here.
  exact (conj eq_refl (conj Hreadable (conj HPlan (conj Hin
           (Plan_returns_complete_plans [group] [patchPlan] patchPlan
              eq_refl Hreadable HPlan Hin))))).
Defined.

(** The request [bareItems] carries no watched namespace; the plan has the
    one of the inventory. *)
Lemma createCustomPlan_plan_is_consistent_witness :
  createCustomPlan coreProvider bareItems = Ok carriedPlan
  /\ (∃ managementGroup,
        getManagementGroup coreProvider = Ok managementGroup
        /\ getProviderContractByVersion (mg_CoreProvider managementGroup)
             (coreTargetVersion managementGroup bareItems)
           = Ok (Contract carriedPlan)
        /\ Forall (λ item,
                     itemContract managementGroup item
                     = Some (Contract carriedPlan)) bareItems
        /\ Forall (upToDate bareItems (Contract carriedPlan))
             (mg_Providers managementGroup)
        /\ carriedPlan
           = customPlan managementGroup (Contract carriedPlan) bareItems
        /\ CoreProvider carriedPlan = mg_CoreProvider managementGroup
        /\ Forall2 (carriedOver managementGroup) bareItems
             (Providers carriedPlan))
  /\ WatchedNamespace ∘ Provider <$> bareItems = [""]
  /\ WatchedNamespace ∘ Provider <$> Providers carriedPlan
     = ["watched-cluster-api"].
Proof.
  assert (createCustomPlan coreProvider bareItems = Ok carriedPlan) as Hplan
    by (by vm_compute).
  exact (conj Hplan
           (conj (createCustomPlan_plan_is_consistent coreProvider bareItems
                    carriedPlan Hplan)
              (conj eq_refl eq_refl))).
Defined.

Lemma createCustomPlan_rejects_strangers_witness :
  getManagementGroup coreProvider = Ok group
  /\ getProviderContractByVersion (mg_CoreProvider group)
       (coreTargetVersion group (patchItems ++ strangerItem :: []))
     = Ok "v1alpha3"
  /\ Forall (λ item, itemContract group item = Some "v1alpha3") patchItems
  /\ GetProviderByInstanceName group (InstanceName (Provider strangerItem))
     = None
  /\ createCustomPlan coreProvider (patchItems ++ strangerItem :: [])
     = Err (NotInManagementGroup (InstanceName (Provider strangerItem))
              (InstanceName coreProvider)).
Proof.
  assert (getManagementGroup coreProvider = Ok group) as Hgroup
    by (by vm_compute).
  assert (getProviderContractByVersion (mg_CoreProvider group)
            (coreTargetVersion group (patchItems ++ strangerItem :: []))
          = Ok "v1alpha3") as Htarget by (by vm_compute).
  assert (Forall (λ item, itemContract group item = Some "v1alpha3") patchItems)
    as Hpre by (each_member; by vm_compute).
  assert (GetProviderByInstanceName group (InstanceName (Provider strangerItem))
          = None) as Hstranger by (by vm_compute).
  exact (conj Hgroup (conj Htarget (conj Hpre (conj Hstranger
           (createCustomPlan_rejects_strangers coreProvider group "v1alpha3"
              patchItems [] strangerItem Hgroup Htarget Hpre Hstranger))))).
Defined.

(** [ApplyPlan] carries out the plan for [v1alpha4] which [Plan] drops. *)
Lemma ApplyPlan_runs_the_candidate_plan_witness :
  getManagementGroup coreProvider = Ok group
  /\ Forall (λ provider, (getUpgradeInfo provider).2 = None) (mg_Providers group)
  /\ ApplyPlan (E := env) coreProvider "v1alpha4" state0
     = doUpgrade (E := env) (candidatePlan group "v1alpha4") state0.
Proof.
  assert (getManagementGroup coreProvider = Ok group) as Hgroup
    by (by vm_compute).
  assert (Forall (λ provider, (getUpgradeInfo provider).2 = None)
            (mg_Providers group)) as Hall by (each_member; by vm_compute).
  exact (conj Hgroup (conj Hall
           (proj2 (ApplyPlan_runs_the_candidate_plan (E := env) coreProvider
                     "v1alpha4" state0) group Hgroup Hall))).
Defined.

Lemma doUpgrade_nothing_to_upgrade_witness :
  Forall (λ i, NextVersion i = "") (Providers idlePlan)
  /\ doUpgrade (E := env) idlePlan state0 = (None, state0).
Proof.
  assert (Forall (λ i, NextVersion i = "") (Providers idlePlan)) as Hidle
    by (each_member; reflexivity).
  exact (conj Hidle (doUpgrade_nothing_to_upgrade (E := env) idlePlan state0 Hidle)).
Defined.

#[local] Abbreviation Init0 :=
  (memoryreader.Init marshalProviders marshalImageMetas).

Lemma Init_sets_providers_and_images_witness :
  (Init0 reader0 "").2 = None
  /\ (Get (Init0 reader0 "").1 "providers"
      = ((marshalProviders (providers reader0)).1, None)
      /\ Get (Init0 reader0 "").1 "images"
         = ((marshalImageMetas (imageMetas reader0)).1, None)
      /\ (∀ key, key ≠ "providers" -> key ≠ "images" ->
                 Get (Init0 reader0 "").1 key = Get reader0 key)
      /\ providers (Init0 reader0 "").1 = providers reader0
      /\ imageMetas (Init0 reader0 "").1 = imageMetas reader0
      /\ Init0 (Init0 reader0 "").1 "" = ((Init0 reader0 "").1, None)).
Proof.
  assert ((Init0 reader0 "").2 = None) as Hinit by by_evaluation.
  exact (conj Hinit
           (Init_sets_providers_and_images marshalProviders marshalImageMetas
              reader0 "" "" Hinit)).
Defined.

#[local] Abbreviation GetFile0 := (repository.GetFile noLatestRelease).
#[local] Abbreviation WithFile0 :=
  (repository.WithFile noLatestContractRelease "v1alpha4").

Lemma GetFile_finds_what_is_stored_witness :
  "v1.0.0" ≠ "" /\ "v1.0.0" ≠ "latest"
  /\ GetFile0 repository0 "v1.0.0" "components.yaml"
     = match repository.versions repository0 !! "v1.0.0" with
       | None => Err (New "unable to get files for version %s" ["v1.0.0"])
       | Some _ =>
           match repository.files repository0
                 !! repository.vpath "v1.0.0" "components.yaml" with
           | Some c => Ok c
           | None =>
               Err (New "unable to get file %s for version %s"
                      ["components.yaml"; "v1.0.0"])
           end
       end.
Proof.
  assert ("v1.0.0" ≠ "") as Hempty by done.
  assert ("v1.0.0" ≠ "latest") as Hlatest by done.
  exact (conj Hempty (conj Hlatest
           (GetFile_finds_what_is_stored noLatestRelease repository0
              "v1.0.0" "components.yaml" Hempty Hlatest))).
Defined.

Lemma GetFile_after_WithFile_witness :
  "v1.0.1" ≠ "" /\ "v1.0.1" ≠ "latest"
  /\ GetFile0 (WithFile0 repository0 "v1.0.1" "components.yaml" "kind: Service")
       "v1.0.1" "components.yaml"
     = Ok "kind: Service".
Proof.
  assert ("v1.0.1" ≠ "") as Hempty by done.
  assert ("v1.0.1" ≠ "latest") as Hlatest by done.
  exact (conj Hempty (conj Hlatest
           (GetFile_after_WithFile noLatestRelease noLatestContractRelease
              "v1alpha4" repository0 "v1.0.1" "components.yaml" "kind: Service"
              Hempty Hlatest))).
Defined.

(** The file [a/b] of version [v1] and the file [b] of version [v1/a] are
    kept under the same key. *)
Lemma WithFile_paths_collide_witness :
  "v1" ≠ "" /\ "v1" ≠ "latest"
  /\ repository.vpath "v1/a" "b" = repository.vpath "v1" "a/b"
  /\ GetFile0
       (WithFile0 (WithFile0 repository0 "v1" "a/b" "first") "v1/a" "b" "second")
       "v1" "a/b"
     = Ok "second".
Proof.
  assert ("v1" ≠ "") as Hempty by done.
  assert ("v1" ≠ "latest") as Hlatest by done.
  exact (conj Hempty (conj Hlatest (conj eq_refl
           (WithFile_paths_collide noLatestRelease noLatestContractRelease
              "v1alpha4" repository0 "v1" "a/b" "first" "v1/a" "b" "second"
              Hempty Hlatest eq_refl)))).
Defined.

End FurtherScenarios.
